(** * shellfish [id] mode: a shallow embedding of cmd/id.go

    The Go source is embedded function by function.  Go [int] and [int64]
    are modelled as [Z] with the 64-bit two's complement wrap-around written
    out where the source does arithmetic; [float64] is Rocq's primitive
    binary64 [float]; slices are lists; a Go [map] is a [gmap].

    A Go call can end in three ways, and the difference matters for several
    properties below: it returns a value, it returns a non-nil [error], or it
    panics (an explicit [panic(...)], an index out of range, a negative
    length given to [make]).  The [outcome] type keeps the three apart. *)

From Stdlib Require Import ZArith String List Floats.PrimFloat Floats.Floats.
From Stdlib Require Import QArith Qround Qabs Qminmax.
From stdpp Require Import base tactics option list gmap strings fin_maps.

#[local] Open Scope string_scope.
#[local] Open Scope list_scope.
#[local] Open Scope Z_scope.

(** ** Outcomes of a Go call *)

(** Runtime panics reachable from cmd/id.go. *)
Inductive panic : Type :=
| PanicImpossible            (* panic("Impossible") *)
| PanicSubhaloNotImplemented (* panic("subhalo is not implemented") *)
| PanicIndexOutOfRange       (* runtime error: index out of range *)
| PanicMakeSliceLen          (* runtime error: makeslice: len out of range *)
| PanicFinder.               (* a panic raised inside the halo package *)

(** Every [fmt.Errorf] site of cmd/id.go, with the values it formats, and
    the failures handed up by the packages the file calls. *)
Inductive error : Type :=
| ErrIDType (idType : string)
| ErrExclusionRadiusMult (mult : float)
| ErrExclusionStrategy (strategy : string)
| ErrIDsNotSet
| ErrIDStartNotSet
| ErrIDEndNotSet
| ErrIDEndBeforeStart (idEnd idStart : Z)
| ErrSnapNotSet
| ErrSnapNegative (snap : Z)
| ErrMult (mult : Z)
| ErrRunSnapNotSet
| ErrRunSnapRange (snap snapMin snapMax : Z)
| ErrIDNotInHaloList (id : Z)
| ErrRankTooLarge (maxID snap : Z)
| ErrCatalogIO (snap : Z)
| ErrParse (fname : string).

(** The error taxonomy of the design document. *)
Inductive errorKind : Type :=
| ConfigError | RangeError | CatalogIOError.

Definition kindOf (e : error) : errorKind :=
  match e with
  | ErrIDNotInHaloList _ | ErrRankTooLarge _ _ => RangeError
  | ErrCatalogIO _ => CatalogIOError
  | _ => ConfigError
  end.

Inductive outcome (A : Type) : Type :=
| Returns (a : A)
| Fails (e : error)
| Panics (p : panic).
Arguments Returns {A} a.
Arguments Fails {A} e.
Arguments Panics {A} p.

#[global] Instance outcome_ret : MRet outcome := @Returns.
#[global] Instance outcome_bind : MBind outcome := λ A B f m,
  match m with
  | Returns a => f a
  | Fails e => Fails e
  | Panics p => Panics p
  end.

(** [s[i]] on a slice, with Go's bounds check. *)
Definition index {A} (s : list A) (i : Z) : outcome A :=
  if bool_decide (0 ≤ i) then
    match s !! Z.to_nat i with
    | Some a => Returns a
    | None => Panics PanicIndexOutOfRange
    end
  else Panics PanicIndexOutOfRange.

(** [s[i] = v] on a slice, with Go's bounds check. *)
Definition store {A} (s : list A) (i : Z) (v : A) : outcome (list A) :=
  if bool_decide (0 ≤ i < Z.of_nat (length s)) then Returns (<[Z.to_nat i := v]> s)
  else Panics PanicIndexOutOfRange.

(** Wrap-around of 64-bit signed arithmetic. *)
Definition wrap64 (z : Z) : Z := (z + 2 ^ 63) mod 2 ^ 64 - 2 ^ 63.

Definition int64_range (z : Z) : Prop := - 2 ^ 63 ≤ z < 2 ^ 63.

(** ** Configuration *)

Record IDConfig : Type := {
  idType : string;
  ids : list Z;
  idStart : Z;
  idEnd : Z;
  snap : Z;
  mult : Z;
  exclusionStrategy : string;
  exclusionRadiusMult : float;
}.

Definition with_exclusionStrategy (config : IDConfig) (s : string) : IDConfig :=
  {| idType := idType config; ids := ids config; idStart := idStart config;
     idEnd := idEnd config; snap := snap config; mult := mult config;
     exclusionStrategy := s;
     exclusionRadiusMult := exclusionRadiusMult config |}.

Definition with_exclusionRadiusMult (config : IDConfig) (m : float) : IDConfig :=
  {| idType := idType config; ids := ids config; idStart := idStart config;
     idEnd := idEnd config; snap := snap config; mult := mult config;
     exclusionStrategy := exclusionStrategy config;
     exclusionRadiusMult := m |}.

(** [validate]: the four checks run in source order; the first failing one
    returns.  [Returns ()] is Go's [nil] error. *)
Definition validate (config : IDConfig) : outcome unit :=
  _ ← (if bool_decide (idType config = "halo-id") || bool_decide (idType config = "m200m")
       then Returns ()
       else Fails (ErrIDType (idType config)));
  _ ← (if bool_decide (exclusionStrategy config = "none")
          || bool_decide (exclusionStrategy config = "subhalo")
       then Returns ()
       else if bool_decide (exclusionStrategy config = "overlap")
       then (if (exclusionRadiusMult config <=? 0)%float
             then Fails (ErrExclusionRadiusMult (exclusionRadiusMult config))
             else Returns ())
       else Fails (ErrExclusionStrategy (exclusionStrategy config)));
  _ ← (if bool_decide (length (ids config) = 0%nat)
       then (if bool_decide (idStart config = -1) && bool_decide (idEnd config = -1)
             then Fails ErrIDsNotSet
             else if bool_decide (idStart config = -1) then Fails ErrIDStartNotSet
             else if bool_decide (idEnd config = -1) then Fails ErrIDEndNotSet
             else if bool_decide (idEnd config < idStart config)
             then Fails (ErrIDEndBeforeStart (idEnd config) (idStart config))
             else Returns ())
       else Returns ());
  _ ← (if bool_decide (snap config = -1) then Fails ErrSnapNotSet
       else if bool_decide (snap config < 0) then Fails (ErrSnapNegative (snap config))
       else Returns ());
  if bool_decide (mult config ≤ 0) then Fails (ErrMult (mult config))
  else Returns ().

(** ** getIDs *)

(** [for i := range out { out[i] = int(idStart) + i }] over a slice of
    length [n], from index [i] on. *)
Fixpoint fillRange (idStart : Z) (i : Z) (n : nat) : list Z :=
  match n with
  | O => []
  | S n' => wrap64 (idStart + i) :: fillRange idStart (i + 1) n'
  end.

Definition getIDs (idStart idEnd : Z) (ids : list Z) : outcome (list Z) :=
  if bool_decide (idStart ≠ -1) then
    let n := wrap64 (idEnd - idStart) in
    if bool_decide (n < 0) then Panics PanicMakeSliceLen
    else Returns (fillRange idStart 0 (Z.to_nat n))
  else Returns ids.

(** ** The world outside cmd/id.go *)

(** [GlobalConfig]: the fields [Run] reads. *)
Record GlobalConfig : Type := {
  SnapMin : Z;
  SnapMax : Z;
  HaloIDColumn : Z;
  HaloM200mColumn : Z;
  HaloPositionColumns : list Z;
}.

(** [halo.VarColumns] ([vcZ] is the source's field [Z]). *)
Record VarColumns : Type := {
  vcID : Z; vcX : Z; vcY : Z; vcZ : Z; vcM200m : Z;
}.

Inductive VectorBuffer : Type := VectorBufferFor (snap : Z).

(** [io.Header]: the field [findOverlapSubs] reads. *)
Record Header : Type := { TotalWidth : float }.

(** The columns [memo.ReadRockstar] hands to the finder. *)
Record HaloArrays : Type := {
  xs : list float; ys : list float; zs : list float; rs : list float;
}.

(** What [*env.Environment], the file system behind it and the Go runtime
    contribute to a run.
    - [getVectorBuffer snap] stands for
      [getVectorBuffer(e.ParticleCatalog(snap, 0), gConfig.SnapshotType,
      gConfig.Endianness)];
    - [sortedCatalog snap] is the stored halo catalog of a snapshot, as the
      list of its halo IDs in descending mass order, or a read failure;
    - [ReadHeaders] and [ReadRockstar] are the [memo] calls of these names
      (the error result of [memo.ReadRockstar] is dropped by the caller, so
      only the arrays are kept);
    - [FindSubhalos cells width halos mult] is the chain [halo.NewGrid],
      [Insert], [halo.NewSubhaloFinder], [FindSubhalos]: it yields the host
      count of every halo, by index, or panics;
    - [rangeOrder] is the order in which [for ... range] visits the entries
      of a map, which Go leaves unspecified: any order that visits each
      entry once. *)
Record Environment : Type := {
  getVectorBuffer : Z → outcome VectorBuffer;
  sortedCatalog : Z → outcome (list Z);
  ReadHeaders : Z → outcome (list Header);
  ReadRockstar : Z → list Z → HaloArrays;
  FindSubhalos : Z → float → HaloArrays → float → outcome (list Z);
  rangeOrder : gmap Z (list Z) → list (Z * list Z);
  rangeOrder_perm : ∀ m, rangeOrder m ≡ₚ map_to_list m;
}.

(** Modelled from the spec: [memo.ReadSortedRockstarIDs] is not in src/.
    Section 4.2 ([SortedIDs(snapshot, maxRank)]): the call returns the
    sorted-ID list with at least [maxRank+1] entries, or the full catalog if
    [maxRank == -1]; a storage failure is propagated.  Section 7: a
    requested mass rank that exceeds the catalog size is a RangeError, and
    every stage returns success or a typed failure.  The list is cut to the
    requested bound; a longer cached prefix would not be observable by the
    callers in cmd/id.go, which read indexes up to [maxID] only. *)
Definition ReadSortedRockstarIDs (e : Environment) (snap maxID : Z) : outcome (list Z) :=
  full ← sortedCatalog e snap;
  if bool_decide (maxID = -1) then Returns full
  else if bool_decide (maxID + 1 ≤ Z.of_nat (length full))
  then Returns (take (Z.to_nat (maxID + 1)) full)
  else Fails (ErrRankTooLarge maxID snap).

(** [sf.HostCount(j)]. *)
Definition HostCount (sf : list Z) (j : Z) : outcome Z := index sf j.

(** ** convertSortedIDs *)

(** [maxID := 0; for _, id := range rawIDs { if id > maxID { maxID = id } }] *)
Definition maxRawID (rawIDs : list Z) : Z :=
  fold_left (λ maxID id, if bool_decide (id > maxID) then id else maxID) rawIDs 0.

(** [for i := range ids { ids[i] = rids[rawIDs[i]] }] *)
Fixpoint lookupRanks (rids rawIDs : list Z) : outcome (list Z) :=
  match rawIDs with
  | [] => Returns []
  | r :: rest =>
      id ← index rids r;
      ids ← lookupRanks rids rest;
      Returns (id :: ids)
  end.

Definition convertSortedIDs (e : Environment) (rawIDs : list Z) (snap : Z)
  : outcome (list Z) :=
  let maxID := maxRawID rawIDs in
  rids ← ReadSortedRockstarIDs e snap maxID;
  lookupRanks rids rawIDs.

(** ** findOverlapSubs *)

Definition finderCells : Z := 150.

(** The grouping loop: [snapGroups[snap] = append(snapGroups[snap], id)] and
    the same for [groupIdxs] with the index [i].  A missing key reads as the
    nil slice. *)
Fixpoint groupBySnapshot (snaps : list Z) (i : Z) (rawIDs : list Z)
    (snapGroups groupIdxs : gmap Z (list Z))
  : outcome (gmap Z (list Z) * gmap Z (list Z)) :=
  match rawIDs with
  | [] => Returns (snapGroups, groupIdxs)
  | id :: rest =>
      snap ← index snaps i;
      groupBySnapshot snaps (i + 1) rest
        (<[snap := default [] (snapGroups !! snap) ++ [id]]> snapGroups)
        (<[snap := default [] (groupIdxs !! snap) ++ [i]]> groupIdxs)
  end.

(** The linear search [for j, checkID := range rids]: it stops at the first
    match, returns the error when the last index is reached without a match,
    and simply ends when [rids] has no element to visit. *)
Inductive searchResult : Type :=
| Found (j : Z)
| NotInList
| LoopEnded.

Fixpoint searchID (id : Z) (len : Z) (j : Z) (rids : list Z) : searchResult :=
  match rids with
  | [] => LoopEnded
  | checkID :: rest =>
      if bool_decide (checkID = id) then Found j
      else if bool_decide (j = len - 1) then NotInList
      else searchID id len (j + 1) rest
  end.

(** [for i, id := range group { ... }] *)
Fixpoint flagGroup (sf rids idxs : list Z) (i : Z) (group : list Z)
    (isSub : list bool) : outcome (list bool) :=
  match group with
  | [] => Returns isSub
  | id :: rest =>
      origIdx ← index idxs i;
      isSub' ← match searchID id (Z.of_nat (length rids)) 0 rids with
               | Found j =>
                   hc ← HostCount sf j;
                   store isSub origIdx (bool_decide (hc > 0))
               | NotInList => Fails (ErrIDNotInHaloList id)
               | LoopEnded => Returns isSub
               end;
      flagGroup sf rids idxs (i + 1) rest isSub'
  end.

(** [for snap, group := range snapGroups { ... }], over the visiting order
    the runtime chose. *)
Fixpoint flagSnapshots (e : Environment) (config : IDConfig) (hd : Header)
    (groupIdxs : gmap Z (list Z)) (groups : list (Z * list Z))
    (isSub : list bool) : outcome (list bool) :=
  match groups with
  | [] => Returns isSub
  | (snap, group) :: rest =>
      rids ← ReadSortedRockstarIDs e snap (-1);
      let halos := ReadRockstar e snap rids in
      sf ← FindSubhalos e finderCells (TotalWidth hd) halos (exclusionRadiusMult config);
      isSub' ← flagGroup sf rids (default [] (groupIdxs !! snap)) 0 group isSub;
      flagSnapshots e config hd groupIdxs rest isSub'
  end.

Definition findOverlapSubs (e : Environment) (rawIDs snaps : list Z)
    (config : IDConfig) : outcome (list bool) :=
  let isSub := replicate (length rawIDs) false in
  '(snapGroups, groupIdxs) ← groupBySnapshot snaps 0 rawIDs ∅ ∅;
  s0 ← index snaps 0;
  hds ← ReadHeaders e s0;
  hd ← index hds 0;
  flagSnapshots e config hd groupIdxs (rangeOrder e snapGroups) isSub.

(** ** Notions used to state what findOverlapSubs computes *)

(** The accumulated map after a non-empty prefix of the selection, all of
    one snapshot, has been grouped. *)
Definition oneGroup (snapshot : Z) (members : list Z) : gmap Z (list Z) :=
  match members with
  | [] => ∅
  | _ => {[ snapshot := members ]}
  end.

(** The flag the code computes for one selected ID, given the snapshot's
    sorted-ID list and the finder's host counts. *)
Inductive flagOf (sf rids : list Z) (id : Z) (before : option bool) : option bool → Prop :=
| flagOf_match j hc :
    searchID id (Z.of_nat (length rids)) 0 rids = Found j →
    index sf j = Returns hc →
    flagOf sf rids id before (Some (bool_decide (hc > 0)))
| flagOf_untouched :
    rids = [] → flagOf sf rids id before before.

(** The entries of [xs] that sit at the positions where [snaps] holds the
    snapshot [s], in order. *)
Definition selectBySnapshot (s : Z) (xs snaps : list Z) : list Z :=
  omap (λ p : Z * Z, if bool_decide (p.2 = s) then Some p.1 else None) (zip xs snaps).

(** ** Output lines *)

(** A line of the output table, before it is rendered as text: the comment
    line built by [catalog.CommentString] or a data line built by
    [catalog.FormatCols] with its integer cells in printing order. *)
Inductive line : Type :=
| CommentLine (intNames floatNames : list string) (order sizes : list Z)
| DataLine (cells : list Z).

(** Modelled from the spec: [catalog.FormatCols] is not in src/.  Section 6
    (output rows): one line per selection, carrying the integer columns in
    the order asked for.  The padding of the cells to a common width is
    text formatting and is left out. *)
Definition FormatCols (intCols : list (list Z)) (floatCols : list (list float))
    (colOrder : list Z) : list line :=
  let height := length (default [] (head intCols)) in
  (λ i, DataLine ((λ c, default 0 (default [] (intCols !! Z.to_nat c) !! i)) <$> colOrder))
    <$> seq 0 height.

(** Modelled from the spec: [catalog.CommentString] is not in src/.
    Section 6: a leading comment line names the columns and their widths. *)
Definition CommentString (intNames floatNames : list string) (order sizes : list Z)
  : line := CommentLine intNames floatNames order sizes.

(** ** Run *)

(** [snaps = make([]int, n); for i := range snaps { snaps[i] = int(config.snap) }] *)
Definition fillSnaps (snap : Z) (snaps : list Z) : list Z :=
  fold_left (λ s i, <[i := snap]> s) (seq 0 (length snaps)) snaps.

(** The filter loop: [if !exclude[i] { fLines = append(fLines, lines[i]) }]. *)
Fixpoint filterLines {A} (exclude : list bool) (i : Z) (lines fLines : list A)
  : outcome (list A) :=
  match lines with
  | [] => Returns fLines
  | l :: rest =>
      ex ← index exclude i;
      filterLines exclude (i + 1) rest (if ex : bool then fLines else fLines ++ [l])
  end.

(** The inner loop of the multiply step:
    [for j := 0; j < int(config.mult); j++ { mLines = append(mLines, l) }],
    with [n] iterations left. *)
Fixpoint appendTimes {A} (l : A) (n : nat) (mLines : list A) : list A :=
  match n with
  | O => mLines
  | S n' => appendTimes l n' (mLines ++ [l])
  end.

(** The multiply step: the outer loop [for i := range fLines].  The loop
    bound [j < mult] gives no iteration for [mult ≤ 0]. *)
Definition multiplyLines {A} (mult : Z) (fLines : list A) : list A :=
  fold_left (λ mLines l, appendTimes l (Z.to_nat mult) mLines) fLines [].

(** Lines 177 to 241 of [Run]: the snapshot checks, [getIDs], the column
    description and the [switch config.idType]. *)
Definition Run_resolve (config : IDConfig) (gConfig : GlobalConfig) (e : Environment)
  : outcome (list Z * list Z) :=
  if bool_decide (snap config = -1) then Fails ErrRunSnapNotSet
  else if bool_decide (snap config < SnapMin gConfig)
          || bool_decide (snap config > SnapMax gConfig)
  then Fails (ErrRunSnapRange (snap config) (SnapMin gConfig) (SnapMax gConfig))
  else
    rawIds ← getIDs (idStart config) (idEnd config) (ids config);
    x ← index (HaloPositionColumns gConfig) 0;
    y ← index (HaloPositionColumns gConfig) 1;
    z ← index (HaloPositionColumns gConfig) 2;
    let vars := {| vcID := HaloIDColumn gConfig; vcX := x; vcY := y; vcZ := z;
                   vcM200m := HaloM200mColumn gConfig |} in
    if bool_decide (idType config = "halo-id") then
      let snaps := fillSnaps (snap config) (replicate (length rawIds) 0) in
      let ids := rawIds in
      s0 ← index snaps 0;
      buf ← getVectorBuffer e s0;
      Returns (ids, snaps)
    else if bool_decide (idType config = "m200m") then
      let snaps := fillSnaps (snap config) (replicate (length rawIds) 0) in
      s0 ← index snaps 0;
      buf ← getVectorBuffer e s0;
      ids ← convertSortedIDs e rawIds (snap config);
      Returns (ids, snaps)
    else Panics PanicImpossible.

(** Lines 244 to 255: the [switch config.exclusionStrategy], which has no
    default case. *)
Definition Run_exclude (config : IDConfig) (e : Environment) (ids snaps : list Z)
  : outcome (list bool) :=
  let exclude := replicate (length ids) false in
  if bool_decide (exclusionStrategy config = "none") then Returns exclude
  else if bool_decide (exclusionStrategy config = "subhalo")
  then Panics PanicSubhaloNotImplemented
  else if bool_decide (exclusionStrategy config = "overlap")
  then findOverlapSubs e ids snaps config
  else Returns exclude.

(** Lines 257 to 282: format, filter, multiply, prepend the comment line. *)
Definition Run_lines (config : IDConfig) (ids snaps : list Z) (exclude : list bool)
  : outcome (list line) :=
  let intCols := [ids; snaps] in
  let lines := FormatCols intCols [] [0; 1] in
  fLines ← filterLines exclude 0 lines [];
  let mLines := multiplyLines (mult config) fLines in
  let cString := CommentString ["ID"; "Snapshot"] [] [0; 1] [1; 1] in
  Returns ([cString] ++ mLines).

Definition Run (config : IDConfig) (gConfig : GlobalConfig) (e : Environment)
  : outcome (list line) :=
  '(ids, snaps) ← Run_resolve config gConfig e;
  exclude ← Run_exclude config e ids snaps;
  Run_lines config ids snaps exclude.

(** ** ReadConfig *)

(** The contents of an id.config file: for each variable, the value the
    file gives it, if any. *)
Record ConfigFile : Type := {
  fIDType : option string;
  fIDs : option (list Z);
  fIDStart : option Z;
  fIDEnd : option Z;
  fMult : option Z;
  fSnap : option Z;
  fExclusionStrategy : option string;
  fExclusionRadiusMult : option float;
}.

(** The defaults registered by the [vars.String], [vars.Ints], [vars.Int]
    and [vars.Float] calls, lines 94 to 101. *)
Definition registeredDefaults : IDConfig :=
  {| idType := "m200m"; ids := []; idStart := -1; idEnd := -1; mult := 1;
     snap := -1; exclusionStrategy := "subhalo"; exclusionRadiusMult := 1%float |}.

(** [parse.ReadConfig] on a file that was read: a variable the file sets
    takes the file's value, any other keeps its registered default (the
    package [parse] is not in src/; this is the behaviour the comments of
    [ExampleConfig] document with "defaults to ... if not set"). *)
Definition assignVars (file : ConfigFile) (vars : IDConfig) : IDConfig :=
  {| idType := default (idType vars) (fIDType file);
     ids := default (ids vars) (fIDs file);
     idStart := default (idStart vars) (fIDStart file);
     idEnd := default (idEnd vars) (fIDEnd file);
     mult := default (mult vars) (fMult file);
     snap := default (snap vars) (fSnap file);
     exclusionStrategy := default (exclusionStrategy vars) (fExclusionStrategy file);
     exclusionRadiusMult :=
       default (exclusionRadiusMult vars) (fExclusionRadiusMult file) |}.

(** [ReadConfig] leaves its receiver filled in and returns an error value:
    the pair is the configuration after the call and that value.
    [readFile] is the file system as [parse.ReadConfig] sees it. *)
Definition ReadConfig (readFile : string → outcome ConfigFile) (fname : string)
  : IDConfig * outcome unit :=
  let vars := registeredDefaults in
  if bool_decide (fname = "") then (vars, Returns ())
  else match readFile fname with
       | Returns file => let config := assignVars file vars in (config, validate config)
       | Fails err => (vars, Fails err)
       | Panics p => (vars, Panics p)
       end.

(** ** The spatial grid and the overlap finder *)

(** The package [halo] ([NewGrid], [Insert], [NewSubhaloFinder],
    [FindSubhalos], [HostCount]) is not in src/.  This module follows
    sections 4.1 and 4.3 of the design document, over exact rationals. *)
Module Finder.

#[local] Open Scope Q_scope.

Record Halo : Type := {
  hid : Z;
  hx : Q; hy : Q; hz : Q;
  hradius : Q;
}.

(** Modelled from the spec: the periodic wrap of a coordinate into
    [[0, L)] (section 4.1, Insert). *)
Definition wrapCoord (L x : Q) : Q := x - L * inject_Z (Qfloor (x / L)).

(** Modelled from the spec: the periodic minimal-image distance (glossary),
    squared: along each axis the shorter way round the torus. *)
Definition axisDist (L a b : Q) : Q :=
  let d := Qabs (wrapCoord L a - wrapCoord L b) in
  Qmin d (L - d).

Definition dist2 (L : Q) (h c : Halo) : Q :=
  axisDist L (hx h) (hx c) * axisDist L (hx h) (hx c)
  + axisDist L (hy h) (hy c) * axisDist L (hy h) (hy c)
  + axisDist L (hz h) (hz c) * axisDist L (hz h) (hz c).

(** Modelled from the spec: "whose center lies within that same scaled
    radius" (section 4.3, step 3). *)
Definition within (L : Q) (h c : Halo) (radius : Q) : bool :=
  Qle_bool (dist2 L h c) (radius * radius).

(** Modelled from the spec: "whose radius is strictly larger than h's (or
    equal-radius but ordered earlier per the tie-break)", the tie-break
    being ascending HaloID (section 4.3, steps 2 and 3). *)
Definition larger (c h : Halo) : bool :=
  negb (Qle_bool (hradius c) (hradius h))
  || (Qeq_bool (hradius c) (hradius h) && (hid c <? hid h)%Z).

(** Modelled from the spec: the Grid of section 4.1.  [Build] allocates the
    empty buckets, [Insert] appends each point's index to the bucket of its
    cell, [floor(coord / cellWidth) mod cellsPerSide] per axis after the
    wrap into [[0, L)]. *)
Record Grid : Type := {
  cellsPerSide : Z;
  domainWidth : Q;
  buckets : gmap (Z * Z * Z) (list nat);
  cellOfPoint : list (Z * Z * Z);
}.

Definition cellWidth (g : Grid) : Q := domainWidth g / inject_Z (cellsPerSide g).

Definition Build (cells : Z) (width : Q) (pointCount : nat) : Grid :=
  {| cellsPerSide := cells; domainWidth := width; buckets := ∅; cellOfPoint := [] |}.

Definition cellIndex (g : Grid) (coord : Q) : Z :=
  (Qfloor (wrapCoord (domainWidth g) coord / cellWidth g) mod cellsPerSide g)%Z.

Definition cellOf (g : Grid) (h : Halo) : Z * Z * Z :=
  (cellIndex g (hx h), cellIndex g (hy h), cellIndex g (hz h)).

Definition insertPoint (g : Grid) (h : Halo) : Grid :=
  let c := cellOf g h in
  let i := length (cellOfPoint g) in
  {| cellsPerSide := cellsPerSide g; domainWidth := domainWidth g;
     buckets := <[c := (default [] (buckets g !! c) ++ [i])%list]> (buckets g);
     cellOfPoint := (cellOfPoint g ++ [c])%list |}.

Definition Insert (g : Grid) (points : list Halo) : Grid :=
  fold_left insertPoint points g.

(** Modelled from the spec: [CandidatesWithinRadius(pointIndex, radius)]
    "returns every point index in the query point's cell and in the
    torus-wrapped ring of cells extending [ceil(radius / cellWidth)] cells
    in each direction". *)
Definition ringOffsets (k : Z) : list Z := seqZ (- k) (2 * k + 1).

Definition CandidatesWithinRadius (g : Grid) (pointIndex : nat) (radius : Q) : list nat :=
  match cellOfPoint g !! pointIndex with
  | None => []
  | Some (cx, cy, cz) =>
      let k := Qceiling (radius / cellWidth g) in
      let C := cellsPerSide g in
      dx ← ringOffsets k; dy ← ringOffsets k; dz ← ringOffsets k;
      default [] (buckets g !! (((cx + dx) mod C)%Z, ((cy + dy) mod C)%Z, ((cz + dz) mod C)%Z))
  end.

(** Modelled from the spec: section 4.3, step 3, for one halo [h] (at index
    [i]) and the candidates the Grid returned for it: every candidate
    [c ≠ h] whose center lies within [radius(h) * exclusionRadiusMult] of
    [h] and which is the larger of the two counts as a host. *)
Definition isHost (L mult : Q) (halos : list Halo) (i : nat) (h : Halo) (j : nat) : bool :=
  match halos !! j with
  | Some c => negb (j =? i)%nat && within L h c (hradius h * mult) && larger c h
  | None => false
  end.

Definition countHosts (L mult : Q) (halos : list Halo) (cands : list nat) (i : nat) : Z :=
  match halos !! i with
  | Some h => Z.of_nat (length (List.filter (isHost L mult halos i h) cands))
  | None => 0%Z
  end.

(** Modelled from the spec: section 4.3.  Steps 1 and 3 for every halo of
    the population; a non-positive radius or multiplier is a precondition
    failure, which is fatal. *)
Definition FindSubhalos (cells : Z) (L mult : Q) (halos : list Halo) : outcome (list Z) :=
  if Qle_bool mult 0 || existsb (λ h, Qle_bool (hradius h) 0) halos
  then Panics PanicFinder
  else
    let g := Insert (Build cells L (length halos)) halos in
    Returns ((λ i, match halos !! i with
                   | Some h =>
                       countHosts L mult halos
                         (CandidatesWithinRadius g i (hradius h * mult)) i
                   | None => 0%Z
                   end) <$> seq 0 (length halos)).

(** The directionality example: A of radius 10, B of radius 2, centers 5
    apart, in a box of side 100. *)
Definition haloA : Halo := {| hid := 1; hx := 50; hy := 50; hz := 50; hradius := 10 |}.
Definition haloB : Halo := {| hid := 2; hx := 55; hy := 50; hz := 50; hradius := 2 |}.

End Finder.

(** ** Sample inputs *)

(** The end-to-end example of the design document: the catalog of snapshot
    10 has five halos, by descending mass [7, 3, 9, 1, 2]; snapshot 11 has
    three halos; snapshot 12 has a catalog without any halo; every other
    snapshot cannot be read. *)
Definition sampleCatalog (snap : Z) : outcome (list Z) :=
  if bool_decide (snap = 10) then Returns [7; 3; 9; 1; 2]
  else if bool_decide (snap = 11) then Returns [4; 8; 6]
  else if bool_decide (snap = 12) then Returns []
  else Fails (ErrCatalogIO snap).

Definition noHalos : HaloArrays := {| xs := []; ys := []; zs := []; rs := [] |}.

(** An environment in which the finder reports the second most massive halo
    of every snapshot as hosted and every other halo as free. *)
Definition sampleEnv : Environment :=
  {| getVectorBuffer := λ snap, Returns (VectorBufferFor snap);
     sortedCatalog := sampleCatalog;
     ReadHeaders := λ snap, Returns [ {| TotalWidth := 100%float |} ];
     ReadRockstar := λ snap rids, noHalos;
     FindSubhalos := λ cells width halos mult, Returns [0; 1; 0; 0; 0];
     rangeOrder := map_to_list;
     rangeOrder_perm := λ m, reflexivity (map_to_list m) |}.

(** The same stored data behind a halo package that cannot be used: the
    headers cannot be read and the finder panics. *)
Definition brokenFinderEnv : Environment :=
  {| getVectorBuffer := λ snap, Returns (VectorBufferFor snap);
     sortedCatalog := sampleCatalog;
     ReadHeaders := λ snap, Fails (ErrCatalogIO snap);
     ReadRockstar := λ snap rids, noHalos;
     FindSubhalos := λ cells width halos mult, Panics PanicFinder;
     rangeOrder := map_to_list;
     rangeOrder_perm := λ m, reflexivity (map_to_list m) |}.

Definition sampleGlobal : GlobalConfig :=
  {| SnapMin := 0; SnapMax := 100; HaloIDColumn := 0; HaloM200mColumn := 1;
     HaloPositionColumns := [2; 3; 4] |}.

Definition sampleConfig (type : string) (ranks : list Z) (snapshot m : Z)
    (strategy : string) (radiusMult : float) : IDConfig :=
  {| idType := type; ids := ranks; idStart := -1; idEnd := -1; snap := snapshot;
     mult := m; exclusionStrategy := strategy; exclusionRadiusMult := radiusMult |}.

(** A configuration file that sets only [Snap] and [IDs]. *)
Definition sampleFile : ConfigFile :=
  {| fIDType := None; fIDs := Some [0; 1; 2]; fIDStart := None; fIDEnd := None;
     fMult := None; fSnap := Some 10; fExclusionStrategy := None;
     fExclusionRadiusMult := None |}.

Definition sampleReadFile (fname : string) : outcome ConfigFile :=
  if bool_decide (fname = "id.config") then Returns sampleFile
  else Fails (ErrParse fname).

(** * Properties *)

Example getIDs_10_15 : getIDs 10 15 [] = Returns [10; 11; 12; 13; 14].
Proof. vm_compute. reflexivity. Qed.

Example Run_end_to_end :
  Run (sampleConfig "m200m" [0; 1; 2] 10 1 "none" 1%float) sampleGlobal sampleEnv
  = Returns [CommentLine ["ID"; "Snapshot"] [] [0; 1] [1; 1];
             DataLine [7; 10]; DataLine [3; 10]; DataLine [9; 10]].
Proof. vm_compute. reflexivity. Qed.

Example Run_overlap :
  Run (sampleConfig "m200m" [0; 1; 2] 10 2 "overlap" 1%float) sampleGlobal sampleEnv
  = Returns [CommentLine ["ID"; "Snapshot"] [] [0; 1] [1; 1];
             DataLine [7; 10]; DataLine [7; 10]; DataLine [9; 10]; DataLine [9; 10]].
Proof. vm_compute. reflexivity. Qed.

Example Run_rank_4_of_3 :
  Run (sampleConfig "m200m" [4] 11 1 "none" 1%float) sampleGlobal sampleEnv
  = Fails (ErrRankTooLarge 4 11).
Proof. vm_compute. reflexivity. Qed.

Example Run_subhalo :
  Run (sampleConfig "m200m" [0] 10 1 "subhalo" 1%float) sampleGlobal sampleEnv
  = Panics PanicSubhaloNotImplemented.
Proof. vm_compute. reflexivity. Qed.

Example Run_overlap_empty_catalog :
  Run (sampleConfig "halo-id" [5] 12 1 "overlap" 1%float) sampleGlobal sampleEnv
  = Returns [CommentLine ["ID"; "Snapshot"] [] [0; 1] [1; 1]; DataLine [5; 12]].
Proof. vm_compute. reflexivity. Qed.

Example Run_overlap_absent_id :
  Run (sampleConfig "halo-id" [5] 10 1 "overlap" 1%float) sampleGlobal sampleEnv
  = Fails (ErrIDNotInHaloList 5).
Proof. vm_compute. reflexivity. Qed.

Example finder_AB :
  Finder.FindSubhalos finderCells 100 1 [Finder.haloA; Finder.haloB] = Returns [0; 0].
Proof. vm_compute. reflexivity. Qed.

(** ** Outcomes, indexing and wrap-around *)

Section outcome_facts.
Context {A B : Type}.
Implicit Types (m : outcome A) (f : A → outcome B).

Lemma bind_Returns_inv m f b :
  m ≫= f = Returns b → ∃ a, m = Returns a ∧ f a = Returns b.
Proof. destruct m as [a| |]; simpl; [eauto | discriminate | discriminate]. Qed.

Lemma bind_Fails_inv m f err :
  m ≫= f = Fails err → m = Fails err ∨ ∃ a, m = Returns a ∧ f a = Fails err.
Proof. destruct m as [a| |]; simpl; [eauto | | discriminate]. intros [= ->]. by left. Qed.

Lemma bind_not_Returns m f :
  (∀ a, m ≠ Returns a) → ∀ b, m ≫= f ≠ Returns b.
Proof. intros Hm b Hb. apply bind_Returns_inv in Hb as (a & Ha & _). by eapply Hm. Qed.
End outcome_facts.

Lemma index_Returns {A} (s : list A) (i : Z) (a : A) :
  index s i = Returns a ↔ 0 ≤ i ∧ s !! Z.to_nat i = Some a.
Proof.
  unfold index. case_bool_decide as Hi.
  - destruct (s !! Z.to_nat i) as [a'|] eqn:Hs; split.
    + intros [= ->]. done.
    + intros [_ [= ->]]. done.
    + discriminate.
    + intros [_ [=]].
  - split; [discriminate | intros [? _]; lia].
Qed.

Lemma index_out_of_range {A} (s : list A) (i : Z) :
  i < 0 ∨ Z.of_nat (length s) ≤ i → index s i = Panics PanicIndexOutOfRange.
Proof.
  intros Hi. unfold index. case_bool_decide; [|done].
  rewrite lookup_ge_None_2; [done | lia].
Qed.

Lemma index_of_nat {A} (s : list A) (n : nat) (a : A) :
  s !! n = Some a → index s (Z.of_nat n) = Returns a.
Proof. intros Hs. apply index_Returns. rewrite Nat2Z.id. split; [lia | done]. Qed.

Lemma wrap64_id (z : Z) : int64_range z → wrap64 z = z.
Proof. unfold int64_range, wrap64. intros Hz. rewrite Z.mod_small; lia. Qed.

(** ** getIDs *)

Lemma fillRange_seqZ (idStart i : Z) (n : nat) :
  - 2 ^ 63 ≤ idStart + i → idStart + i + Z.of_nat n ≤ 2 ^ 63 →
  fillRange idStart i n = seqZ (idStart + i) (Z.of_nat n).
Proof.
  revert i. induction n as [|n IH]; intros i Hlo Hhi; [done|].
  cbn [fillRange]. rewrite seqZ_cons by lia.
  rewrite wrap64_id by (unfold int64_range; lia).
  f_equal. rewrite IH by lia. f_equal; lia.
Qed.

(** A span [idEnd - idStart] that does not fit in 64 bits wraps to a
    negative length, and [make] panics. *)
Lemma getIDs_span_overflow (idStart idEnd : Z) (ids : list Z) :
  int64_range idStart → int64_range idEnd → idStart ≠ -1 →
  2 ^ 63 ≤ idEnd - idStart →
  getIDs idStart idEnd ids = Panics PanicMakeSliceLen.
Proof.
  unfold int64_range, getIDs. intros Hs He Hne Hspan.
  rewrite bool_decide_true by done. cbv zeta.
  rewrite bool_decide_true; [done|].
  unfold wrap64.
  replace (idEnd - idStart + 2 ^ 63) with ((idEnd - idStart - 2 ^ 63) + 1 * 2 ^ 64) by lia.
  rewrite Z.mod_add by lia. rewrite Z.mod_small; lia.
Qed.

(** With [IDStart] unset the explicit list is passed through unchanged. *)
Lemma getIDs_explicit (idEnd : Z) (ids : list Z) : getIDs (-1) idEnd ids = Returns ids.
Proof. done. Qed.

(** C3.  For [IDStart = s ≠ -1] and [IDEnd = e ≥ s], [getIDs] yields the
    raw integers [s, s+1, ..., e-1]: [e - s] entries, and [e] itself is not
    among them.  The range is half-open, where the claim (and the comment of
    [ExampleConfig], "start and end (inclusive)") promises [e - s + 1]
    entries ending with [e]. *)
Theorem getIDs_range_excludes_end (idStart idEnd : Z) (ids : list Z) :
  int64_range idStart → int64_range idEnd → idStart ≠ -1 →
  idStart ≤ idEnd → idEnd - idStart < 2 ^ 63 →
  getIDs idStart idEnd ids = Returns (seqZ idStart (idEnd - idStart))
  ∧ Z.of_nat (length (seqZ idStart (idEnd - idStart))) = idEnd - idStart
  ∧ idEnd ∉ seqZ idStart (idEnd - idStart).
Proof.
  intros Hs He Hne Hle Hspan. split; [|split].
  - unfold getIDs. rewrite bool_decide_true by done. cbv zeta.
    rewrite wrap64_id by (unfold int64_range in *; lia).
    rewrite bool_decide_false by lia.
    rewrite fillRange_seqZ.
    + f_equal. f_equal; lia.
    + unfold int64_range in *. lia.
    + unfold int64_range in *. lia.
  - rewrite length_seqZ. lia.
  - rewrite elem_of_seqZ. lia.
Qed.

Lemma getIDs_range_excludes_end_witness :
  getIDs 10 15 [] = Returns [10; 11; 12; 13; 14]
  ∧ Z.of_nat (length (seqZ 10 (15 - 10))) = 15 - 10
  ∧ 15 ∉ seqZ 10 (15 - 10).
Proof.
  apply (getIDs_range_excludes_end 10 15 []); unfold int64_range; lia.
Defined.

(** ** The multiply step *)

Lemma appendTimes_replicate {A} (l : A) (n : nat) (mLines : list A) :
  appendTimes l n mLines = mLines ++ replicate n l.
Proof.
  revert mLines. induction n as [|n IH]; intros mLines; simpl.
  - by rewrite app_nil_r.
  - rewrite IH, <- app_assoc. done.
Qed.

Lemma multiplyLines_bind {A} (mult : Z) (fLines : list A) :
  multiplyLines mult fLines = fLines ≫= replicate (Z.to_nat mult).
Proof.
  unfold multiplyLines.
  enough (∀ acc, fold_left (λ mLines l, appendTimes l (Z.to_nat mult) mLines) fLines acc
                 = acc ++ (fLines ≫= replicate (Z.to_nat mult))) as H by apply (H []).
  induction fLines as [|l rest IH]; intros acc; simpl.
  - by rewrite app_nil_r.
  - rewrite IH, appendTimes_replicate, <- app_assoc. done.
Qed.

(** C4.  For [mult ≥ 1] the multiply step turns the surviving rows
    [r1, ..., rn] into [mult] copies of [r1], then [mult] copies of [r2],
    and so on: every row exactly [mult] times, its copies contiguous, rows
    in their original order. *)
Theorem multiplyLines_grouped {A} (mult : Z) (rows : list A) :
  1 ≤ mult →
  ∃ n : nat, Z.of_nat n = mult
    ∧ multiplyLines mult rows = concat ((λ r, replicate n r) <$> rows)
    ∧ Z.of_nat (length (multiplyLines mult rows)) = mult * Z.of_nat (length rows).
Proof.
  intros Hmult. exists (Z.to_nat mult). split; [lia|].
  rewrite multiplyLines_bind. split.
  - induction rows as [|r rest IH]; [done|].
    rewrite bind_cons, IH. done.
  - induction rows as [|r rest IH]; [simpl; lia|].
    rewrite bind_cons, length_app, length_replicate.
    rewrite Nat2Z.inj_add, IH. simpl length. lia.
Qed.

Lemma multiplyLines_grouped_witness :
  ∃ n : nat, Z.of_nat n = 3
    ∧ multiplyLines 3 [DataLine [7; 10]; DataLine [3; 10]]
      = concat ((λ r, replicate n r) <$> [DataLine [7; 10]; DataLine [3; 10]])
    ∧ Z.of_nat (length (multiplyLines 3 [DataLine [7; 10]; DataLine [3; 10]]))
      = 3 * Z.of_nat (length [DataLine [7; 10]; DataLine [3; 10]]).
Proof. apply (multiplyLines_grouped 3 [DataLine [7; 10]; DataLine [3; 10]]). lia. Defined.

Example multiplyLines_3 (r1 r2 : line) :
  multiplyLines 3 [r1; r2] = [r1; r1; r1; r2; r2; r2].
Proof. reflexivity. Qed.

(** ** validate *)

Lemma kindOf_validate (config : IDConfig) (err : error) :
  validate config = Fails err → kindOf err = ConfigError.
Proof.
  unfold validate. intros H.
  repeat match type of H with
  | _ ≫= _ = Fails _ => apply bind_Fails_inv in H as [H | (? & _ & H)]
  | (if ?b then _ else _) = Fails _ => destruct b
  | Fails _ = Fails _ => injection H as <-
  | Returns _ = Fails _ => discriminate H
  end; done.
Qed.

(** The strategies "none" and "subhalo" share one empty case of the switch:
    [validate] cannot tell them apart. *)
Lemma validate_subhalo_as_none (config : IDConfig) :
  exclusionStrategy config = "subhalo" →
  validate config = validate (with_exclusionStrategy config "none").
Proof. unfold validate. simpl. intros ->. done. Qed.

Lemma validate_ignores_radius_mult (config : IDConfig) (m : float) :
  exclusionStrategy config ≠ "overlap" →
  validate (with_exclusionRadiusMult config m) = validate config.
Proof.
  intros Hs. unfold validate. simpl.
  rewrite (bool_decide_false (exclusionStrategy config = "overlap")) by done.
  done.
Qed.

(** C8.  With strategy "overlap" and a multiplier [≤ 0], [validate] returns
    an error, a ConfigError; it is the multiplier error whenever [IDType]
    is a known one (otherwise the earlier [IDType] check has already
    failed).  [validate] is a function of the configuration alone: no
    catalog or file is read.  With strategy "none" the multiplier plays no
    part in the result. *)
Theorem validate_radius_mult_only_for_overlap (config : IDConfig) :
  (exclusionStrategy config = "overlap" →
   (exclusionRadiusMult config <=? 0)%float = true →
   ∃ err, validate config = Fails err ∧ kindOf err = ConfigError
     ∧ (idType config = "halo-id" ∨ idType config = "m200m" →
        err = ErrExclusionRadiusMult (exclusionRadiusMult config)))
  ∧ (exclusionStrategy config = "none" →
     ∀ m, validate (with_exclusionRadiusMult config m) = validate config).
Proof.
  split.
  - intros Hs Hm.
    assert (∃ err, validate config = Fails err
              ∧ (idType config = "halo-id" ∨ idType config = "m200m" →
                 err = ErrExclusionRadiusMult (exclusionRadiusMult config)))
      as (err & Herr & Hwhich).
    { unfold validate. rewrite Hs, Hm. simpl.
      destruct (bool_decide (idType config = "halo-id")) eqn:H1;
        destruct (bool_decide (idType config = "m200m")) eqn:H2; simpl;
        try (eexists; split; [reflexivity | done]).
      apply bool_decide_eq_false in H1, H2.
      eexists; split; [reflexivity|]. intros [?|?]; done. }
    exists err. eauto using kindOf_validate.
  - intros Hs m. apply validate_ignores_radius_mult. by rewrite Hs.
Qed.

Lemma validate_radius_mult_only_for_overlap_witness :
  (∃ err, validate (sampleConfig "m200m" [0] 10 1 "overlap" (-1)%float) = Fails err
      ∧ kindOf err = ConfigError ∧ err = ErrExclusionRadiusMult (-1)%float)
  ∧ validate (sampleConfig "m200m" [0] 10 1 "none" (-1)%float) = Returns ()
  ∧ validate (sampleConfig "m200m" [0] 10 1 "none" 1%float) = Returns ().
Proof.
  split; [|split].
  - destruct (validate_radius_mult_only_for_overlap
                (sampleConfig "m200m" [0] 10 1 "overlap" (-1)%float)) as [H _].
    destruct H as (err & H1 & H2 & H3); [reflexivity | reflexivity |].
    exists err. split; [done | split; [done|]]. apply H3. by right.
  - destruct (validate_radius_mult_only_for_overlap
                (sampleConfig "m200m" [0] 10 1 "none" 1%float)) as [_ H].
    apply (H eq_refl (-1)%float).
  - reflexivity.
Defined.

(** ** The subhalo strategy *)

Lemma Run_exclude_subhalo (config : IDConfig) (e : Environment) (ids snaps : list Z) :
  exclusionStrategy config = "subhalo" →
  Run_exclude config e ids snaps = Panics PanicSubhaloNotImplemented.
Proof. unfold Run_exclude. intros ->. done. Qed.

Lemma Run_subhalo_panics (config : IDConfig) (gConfig : GlobalConfig) (e : Environment)
    (ids snaps : list Z) :
  exclusionStrategy config = "subhalo" →
  Run_resolve config gConfig e = Returns (ids, snaps) →
  Run config gConfig e = Panics PanicSubhaloNotImplemented.
Proof.
  intros Hs Hr. unfold Run. rewrite Hr. simpl.
  by rewrite Run_exclude_subhalo.
Qed.

Lemma Run_subhalo_no_lines (config : IDConfig) (gConfig : GlobalConfig) (e : Environment) :
  exclusionStrategy config = "subhalo" →
  ∀ lines, Run config gConfig e ≠ Returns lines.
Proof.
  intros Hs lines HRun. unfold Run in HRun.
  apply bind_Returns_inv in HRun as ([ids snaps] & _ & HRun).
  apply bind_Returns_inv in HRun as (exclude & Hex & _).
  by rewrite Run_exclude_subhalo in Hex.
Qed.

Lemma Run_subhalo_error_is_earlier (config : IDConfig) (gConfig : GlobalConfig)
    (e : Environment) (err : error) :
  exclusionStrategy config = "subhalo" →
  Run config gConfig e = Fails err → Run_resolve config gConfig e = Fails err.
Proof.
  intros Hs HRun. unfold Run in HRun.
  apply bind_Fails_inv in HRun as [H | ([ids snaps] & _ & HRun)]; [done|].
  by rewrite Run_exclude_subhalo in HRun.
Qed.

(** C2, as the code has it.  A configuration with strategy "subhalo" is
    not rejected by [validate], which treats it like "none".  [Run] never
    produces output for it, and never skips the exclusion silently: once
    the IDs are resolved it stops with the panic "subhalo is not
    implemented".  The panic is not a returned error: an error value that
    [Run] returns for such a configuration comes from the resolution steps
    before the switch. *)
Theorem subhalo_strategy_panics (config : IDConfig) (gConfig : GlobalConfig)
    (e : Environment) :
  exclusionStrategy config = "subhalo" →
  validate config = validate (with_exclusionStrategy config "none")
  ∧ (∀ lines, Run config gConfig e ≠ Returns lines)
  ∧ (∀ ids snaps, Run_resolve config gConfig e = Returns (ids, snaps) →
       Run config gConfig e = Panics PanicSubhaloNotImplemented)
  ∧ (∀ err, Run config gConfig e = Fails err → Run_resolve config gConfig e = Fails err).
Proof.
  intros Hs. split; [|split; [|split]].
  - by apply validate_subhalo_as_none.
  - by apply Run_subhalo_no_lines.
  - intros ids snaps. by apply Run_subhalo_panics.
  - intros err. by apply Run_subhalo_error_is_earlier.
Qed.

Lemma subhalo_strategy_panics_witness :
  validate (sampleConfig "m200m" [0] 10 1 "subhalo" 1%float) = Returns ()
  ∧ Run (sampleConfig "m200m" [0] 10 1 "subhalo" 1%float) sampleGlobal sampleEnv
    = Panics PanicSubhaloNotImplemented.
Proof.
  destruct (subhalo_strategy_panics (sampleConfig "m200m" [0] 10 1 "subhalo" 1%float)
              sampleGlobal sampleEnv eq_refl) as (Hv & _ & Hp & _).
  split.
  - rewrite Hv. reflexivity.
  - apply (Hp [7] [10]). reflexivity.
Defined.

(** C2, as stated, fails: here is a configuration with strategy "subhalo"
    for which neither [validate] nor [Run] returns an error. *)
Lemma subhalo_not_rejected_by_error :
  ¬ (∀ config gConfig e, exclusionStrategy config = "subhalo" →
       (∃ err, validate config = Fails err) ∨ (∃ err, Run config gConfig e = Fails err)).
Proof.
  intros H.
  destruct (H (sampleConfig "m200m" [0] 10 1 "subhalo" 1%float) sampleGlobal sampleEnv
              eq_refl) as [[err Herr] | [err Herr]]; vm_compute in Herr; discriminate.
Qed.

(** ** ReadConfig *)

Lemma ReadConfig_assigns readFile fname file :
  fname ≠ "" → readFile fname = Returns file →
  ReadConfig readFile fname
  = (assignVars file registeredDefaults, validate (assignVars file registeredDefaults)).
Proof.
  intros Hne Hfile. unfold ReadConfig.
  rewrite bool_decide_false by done. by rewrite Hfile.
Qed.

(** Without a file name [ReadConfig] returns nil at once, the receiver
    holding the registered defaults. *)
Lemma ReadConfig_no_file readFile :
  ReadConfig readFile "" = (registeredDefaults, Returns ()).
Proof. done. Qed.

(** C9.  When the file does not set [ExclusionStrategy], the configuration
    read has strategy "subhalo"; [validate] does not object to that value
    (its verdict is the one it gives with "none" in its place); and a run
    of that configuration whose IDs resolve reaches the subhalo branch of
    [Run], which panics. *)
Theorem ReadConfig_default_strategy_subhalo
    (readFile : string → outcome ConfigFile) (fname : string) (file : ConfigFile) :
  fname ≠ "" → readFile fname = Returns file → fExclusionStrategy file = None →
  let config := (ReadConfig readFile fname).1 in
  exclusionStrategy config = "subhalo"
  ∧ (ReadConfig readFile fname).2 = validate (with_exclusionStrategy config "none")
  ∧ (∀ s, (ReadConfig readFile fname).2 ≠ Fails (ErrExclusionStrategy s))
  ∧ (∀ gConfig e ids snaps, Run_resolve config gConfig e = Returns (ids, snaps) →
       Run config gConfig e = Panics PanicSubhaloNotImplemented).
Proof.
  intros Hne Hfile Habsent. rewrite (ReadConfig_assigns _ _ _ Hne Hfile). cbn [fst snd].
  assert (exclusionStrategy (assignVars file registeredDefaults) = "subhalo") as Hs.
  { unfold assignVars. cbn [exclusionStrategy]. by rewrite Habsent. }
  split; [done|]. split; [by apply validate_subhalo_as_none|]. split.
  - intros s. unfold validate. rewrite Hs.
    rewrite (bool_decide_eq_true_2 ("subhalo" = "subhalo")), orb_true_r by done.
    intros H.
    repeat match type of H with
    | _ ≫= _ = Fails _ => apply bind_Fails_inv in H as [H | (? & _ & H)]
    | (if ?b then _ else _) = Fails _ => destruct b
    | _ => discriminate H
    end.
  - intros gConfig e ids snaps. by apply Run_subhalo_panics.
Qed.

Lemma ReadConfig_default_strategy_subhalo_witness :
  exclusionStrategy (ReadConfig sampleReadFile "id.config").1 = "subhalo"
  ∧ (ReadConfig sampleReadFile "id.config").2 = Returns ()
  ∧ Run (ReadConfig sampleReadFile "id.config").1 sampleGlobal sampleEnv
    = Panics PanicSubhaloNotImplemented.
Proof.
  destruct (ReadConfig_default_strategy_subhalo sampleReadFile "id.config" sampleFile)
    as (Hs & Hv & _ & Hp); [done | reflexivity | reflexivity |].
  split; [exact Hs|]. split.
  - rewrite Hv. reflexivity.
  - apply (Hp sampleGlobal sampleEnv [7; 3; 9] [10; 10; 10]). reflexivity.
Defined.

(** ** convertSortedIDs *)

Lemma maxRawID_fold_ge (rawIDs : list Z) (start : Z) :
  let maxID := fold_left (λ maxID id, if bool_decide (id > maxID) then id else maxID)
                 rawIDs start in
  start ≤ maxID ∧ ∀ r, r ∈ rawIDs → r ≤ maxID.
Proof.
  revert start. induction rawIDs as [|id rest IH]; intros start; simpl.
  - split; [lia|]. intros r Hr. by apply elem_of_nil in Hr.
  - destruct (IH (if bool_decide (id > start) then id else start)) as [Hstart Hrest].
    split.
    + case_bool_decide; lia.
    + intros r [->|Hr]%elem_of_cons; [|by apply Hrest].
      case_bool_decide; lia.
Qed.

Lemma maxRawID_nonneg (rawIDs : list Z) : 0 ≤ maxRawID rawIDs.
Proof. by destruct (maxRawID_fold_ge rawIDs 0). Qed.

Lemma maxRawID_ge (rawIDs : list Z) (r : Z) : r ∈ rawIDs → r ≤ maxRawID rawIDs.
Proof. destruct (maxRawID_fold_ge rawIDs 0) as [_ H]. apply H. Qed.

(** [convertSortedIDs] has no range check of its own.  It hands up the
    error of [memo.ReadSortedRockstarIDs], and on a list that is too short
    for a requested rank (or for a negative rank) the indexing panics. *)
Lemma convertSortedIDs_memo_error e rawIDs snap err :
  ReadSortedRockstarIDs e snap (maxRawID rawIDs) = Fails err →
  convertSortedIDs e rawIDs snap = Fails err.
Proof. unfold convertSortedIDs. by intros ->. Qed.


Lemma lookupRanks_Returns (rids rawIDs ids : list Z) :
  lookupRanks rids rawIDs = Returns ids →
  length ids = length rawIDs
  ∧ ∀ i r, rawIDs !! i = Some r → 0 ≤ r ∧ ids !! i = rids !! Z.to_nat r.
Proof.
  revert ids. induction rawIDs as [|r rest IH]; intros ids; simpl.
  - intros [= <-]. split; [done|]. intros i r Hi. by rewrite lookup_nil in Hi.
  - intros H. apply bind_Returns_inv in H as (id & Hid & H).
    apply bind_Returns_inv in H as (ids' & Hids' & [= <-]).
    apply index_Returns in Hid as [Hr Hid]. destruct (IH _ Hids') as [Hlen Hall].
    split; [simpl; by rewrite Hlen|].
    intros [|i] r'; simpl.
    + intros [= <-]. done.
    + apply Hall.
Qed.

Lemma ReadSortedRockstarIDs_rank_too_large e snap maxID full :
  sortedCatalog e snap = Returns full → Z.of_nat (length full) ≤ maxID →
  ReadSortedRockstarIDs e snap maxID = Fails (ErrRankTooLarge maxID snap).
Proof.
  intros Hfull Hmax. unfold ReadSortedRockstarIDs. rewrite Hfull. simpl.
  rewrite bool_decide_false by lia. rewrite bool_decide_false by lia. done.
Qed.

(** ** Resolution of the selection in Run *)

Lemma fillSnaps_replicate (snap : Z) (snaps : list Z) :
  fillSnaps snap snaps = replicate (length snaps) snap.
Proof.
  unfold fillSnaps.
  enough (∀ pre, fold_left (λ s i, <[i := snap]> s) (seq (length pre) (length snaps))
                   (pre ++ snaps) = pre ++ replicate (length snaps) snap) as H
      by apply (H []).
  induction snaps as [|x rest IH]; intros pre; [done|].
  simpl. rewrite insert_app_r_alt by lia. rewrite Nat.sub_diag. simpl.
  specialize (IH (pre ++ [snap])). rewrite length_app in IH. simpl in IH.
  rewrite Nat.add_1_r in IH. rewrite <- !app_assoc in IH. exact IH.
Qed.

Lemma fillSnaps_make (snap : Z) (n : nat) :
  fillSnaps snap (replicate n 0) = replicate n snap.
Proof. by rewrite fillSnaps_replicate, length_replicate. Qed.

(** What a successful resolution went through. *)
Lemma Run_resolve_inv config gConfig e hids snaps :
  Run_resolve config gConfig e = Returns (hids, snaps) →
  ∃ rawIds,
    getIDs (idStart config) (idEnd config) (ids config) = Returns rawIds
    ∧ rawIds ≠ []
    ∧ snaps = replicate (length rawIds) (snap config)
    ∧ length hids = length rawIds
    ∧ ((idType config = "halo-id" ∧ hids = rawIds)
       ∨ (idType config = "m200m"
          ∧ convertSortedIDs e rawIds (snap config) = Returns hids)).
Proof.
  unfold Run_resolve. intros H.
  case_bool_decide; [discriminate|].
  destruct (_ || _); [discriminate|].
  apply bind_Returns_inv in H as (rawIds & HrawIds & H).
  apply bind_Returns_inv in H as (x & _ & H).
  apply bind_Returns_inv in H as (y & _ & H).
  apply bind_Returns_inv in H as (z & _ & H).
  cbv zeta in H. rewrite fillSnaps_make in H.
  exists rawIds. split; [done|].
  assert (∀ s0, index (replicate (length rawIds) (snap config)) 0 = Returns s0 →
                rawIds ≠ []) as Hnonempty.
  { intros s0 [_ Hs0]%index_Returns ->. discriminate Hs0. }
  case_bool_decide as Hhalo.
  - apply bind_Returns_inv in H as (s0 & Hs0 & H).
    apply bind_Returns_inv in H as (buf & _ & [= <- <-]).
    eauto 10.
  - case_bool_decide as Hm200m; [|discriminate].
    apply bind_Returns_inv in H as (s0 & Hs0 & H).
    apply bind_Returns_inv in H as (buf & _ & H).
    apply bind_Returns_inv in H as (ids' & Hconv & [= <- <-]).
    split; [eauto|]. split; [done|]. split; [|by right].
    unfold convertSortedIDs in Hconv.
    apply bind_Returns_inv in Hconv as (rids & _ & Hlook).
    by apply lookupRanks_Returns in Hlook as [-> _].
Qed.

(** C1.  In m200m mode, when some requested rank [r] is not below the
    size of the snapshot's catalog, [convertSortedIDs] returns an error, a
    RangeError, and a run with that selection returns no lines.  The error
    is the one raised for the largest requested rank by the sorted-ID
    lookup, which [convertSortedIDs] hands up unchanged. *)
Theorem convertSortedIDs_rank_beyond_catalog (e : Environment) (rawIDs : list Z)
    (snapshot : Z) (full : list Z) (r : Z) :
  sortedCatalog e snapshot = Returns full →
  r ∈ rawIDs → Z.of_nat (length full) ≤ r →
  (∃ err, convertSortedIDs e rawIDs snapshot = Fails err ∧ kindOf err = RangeError)
  ∧ (∀ config gConfig,
       idType config = "m200m" → snap config = snapshot →
       getIDs (idStart config) (idEnd config) (ids config) = Returns rawIDs →
       ∀ lines, Run config gConfig e ≠ Returns lines).
Proof.
  intros Hfull Hin Hr.
  assert (convertSortedIDs e rawIDs snapshot
          = Fails (ErrRankTooLarge (maxRawID rawIDs) snapshot)) as Hconv.
  { apply convertSortedIDs_memo_error.
    apply (ReadSortedRockstarIDs_rank_too_large _ _ _ full); [done|].
    pose proof (maxRawID_ge rawIDs r Hin). lia. }
  split; [by eexists|].
  intros config gConfig Htype Hsnap Hget lines HRun. unfold Run in HRun.
  apply bind_Returns_inv in HRun as ([hids snaps] & Hres & _).
  apply Run_resolve_inv in Hres as (rawIds & Hget' & _ & _ & _ & Hmode).
  rewrite Hget in Hget'. injection Hget' as <-.
  destruct Hmode as [[Hhalo _] | [_ Hok]].
  - rewrite Htype in Hhalo. discriminate.
  - rewrite Hsnap, Hconv in Hok. discriminate.
Qed.

(** Mass rank 4 on the three-halo catalog of snapshot 11. *)
Lemma convertSortedIDs_rank_beyond_catalog_witness :
  (∃ err, convertSortedIDs sampleEnv [4] 11 = Fails err ∧ kindOf err = RangeError)
  ∧ (∀ lines,
       Run (sampleConfig "m200m" [4] 11 1 "none" 1%float) sampleGlobal sampleEnv
       ≠ Returns lines).
Proof.
  destruct (convertSortedIDs_rank_beyond_catalog sampleEnv [4] 11 [4; 8; 6] 4)
    as [Herr Hrun].
  - reflexivity.
  - apply list_elem_of_singleton. reflexivity.
  - simpl. lia.
  - split; [exact Herr|].
    apply (Hrun (sampleConfig "m200m" [4] 11 1 "none" 1%float) sampleGlobal);
      reflexivity.
Defined.

(** ** findOverlapSubs: grouping by snapshot *)

Lemma index_replicate {A} (n : nat) (a : A) (i : nat) :
  (i < n)%nat → index (replicate n a) (Z.of_nat i) = Returns a.
Proof. intros Hi. apply index_of_nat. by apply lookup_replicate_2. Qed.

Lemma oneGroup_append (snapshot : Z) (members : list Z) (x : Z) :
  <[snapshot := default [] (oneGroup snapshot members !! snapshot) ++ [x]]>
    (oneGroup snapshot members)
  = oneGroup snapshot (members ++ [x]).
Proof.
  destruct members as [|m members]; simpl.
  - by rewrite lookup_empty, insert_empty.
  - by rewrite lookup_singleton_eq, insert_singleton_eq.
Qed.

Lemma groupBySnapshot_constant (snapshot : Z) (n : nat) (rest done_ : list Z) :
  (length done_ + length rest = n)%nat →
  groupBySnapshot (replicate n snapshot) (Z.of_nat (length done_)) rest
    (oneGroup snapshot done_) (oneGroup snapshot (seqZ 0 (Z.of_nat (length done_))))
  = Returns (oneGroup snapshot (done_ ++ rest), oneGroup snapshot (seqZ 0 (Z.of_nat n))).
Proof.
  revert done_. induction rest as [|id rest IH]; intros done_ Hlen; simpl.
  - rewrite app_nil_r. simpl in Hlen. rewrite Nat.add_0_r in Hlen. by subst n.
  - simpl in Hlen. rewrite index_replicate by lia. simpl.
    rewrite !oneGroup_append.
    specialize (IH (done_ ++ [id])). rewrite length_app in IH. simpl in IH.
    rewrite Nat.add_1_r in IH. rewrite Nat2Z.inj_succ in IH.
    rewrite <- Z.add_1_r in IH. rewrite <- app_assoc in IH. simpl in IH.
    replace (seqZ 0 (Z.of_nat (length done_)) ++ [Z.of_nat (length done_)])
      with (seqZ 0 (Z.of_nat (length done_) + 1)).
    + apply IH. lia.
    + rewrite Z.add_1_r, <- Nat2Z.inj_succ, seqZ_S. done.
Qed.

(** When every pair carries the same snapshot, grouping a non-empty
    selection yields exactly one group, holding the whole selection, and the
    positions [0, ..., n-1] as its original indexes. *)
Lemma groupBySnapshot_single (snapshot : Z) (hids : list Z) :
  hids ≠ [] →
  groupBySnapshot (replicate (length hids) snapshot) 0 hids ∅ ∅
  = Returns ({[ snapshot := hids ]}, {[ snapshot := seqZ 0 (Z.of_nat (length hids)) ]}).
Proof.
  intros Hne.
  pose proof (groupBySnapshot_constant snapshot (length hids) hids [] eq_refl) as H.
  etrans; [exact H|]. destruct hids as [|id rest]; [done|].
  unfold oneGroup. simpl app. rewrite seqZ_cons by (simpl; lia). done.
Qed.

Lemma rangeOrder_singleton (e : Environment) (k : Z) (v : list Z) :
  rangeOrder e {[ k := v ]} = [(k, v)].
Proof.
  apply Permutation_singleton_r.
  rewrite (rangeOrder_perm e). by rewrite map_to_list_singleton.
Qed.

(** ** findOverlapSubs: the linear search *)

Lemma searchID_nil (id len j : Z) : searchID id len j [] = LoopEnded.
Proof. done. Qed.

Lemma searchID_first_match (id j0 : Z) (pre post : list Z) :
  id ∉ pre →
  searchID id (j0 + Z.of_nat (length (pre ++ id :: post))) j0 (pre ++ id :: post)
  = Found (j0 + Z.of_nat (length pre)).
Proof.
  revert j0. induction pre as [|x pre IH]; intros j0 Hnotin; simpl.
  - rewrite bool_decide_true by done. f_equal. lia.
  - apply not_elem_of_cons in Hnotin as [Hne Hnotin].
    rewrite bool_decide_false by done.
    rewrite bool_decide_false by (rewrite length_app; simpl; lia).
    specialize (IH (j0 + 1) Hnotin).
    replace (j0 + Z.of_nat (S (length (pre ++ id :: post))))
      with (j0 + 1 + Z.of_nat (length (pre ++ id :: post))) by lia.
    rewrite IH. f_equal. lia.
Qed.

Lemma searchID_absent (id j0 : Z) (rids : list Z) :
  rids ≠ [] → id ∉ rids →
  searchID id (j0 + Z.of_nat (length rids)) j0 rids = NotInList.
Proof.
  revert j0. induction rids as [|x rids IH]; intros j0 Hne Hnotin; [done|].
  apply not_elem_of_cons in Hnotin as [Hx Hnotin]. simpl.
  rewrite bool_decide_false by done.
  destruct rids as [|y rids].
  - rewrite bool_decide_true; [done | simpl; lia].
  - rewrite bool_decide_false by (simpl; lia).
    replace (j0 + Z.of_nat (S (length (y :: rids))))
      with (j0 + 1 + Z.of_nat (length (y :: rids))) by lia.
    by apply IH.
Qed.

Lemma searchID_Found_inv (id len j0 j : Z) (rids : list Z) :
  searchID id len j0 rids = Found j →
  j0 ≤ j ∧ rids !! Z.to_nat (j - j0) = Some id
  ∧ ∀ k, (k < Z.to_nat (j - j0))%nat → rids !! k ≠ Some id.
Proof.
  revert j0. induction rids as [|x rids IH]; intros j0; simpl; [discriminate|].
  case_bool_decide as Hx.
  - intros [= <-]. rewrite Z.sub_diag. simpl. subst x. split; [lia|]. split; [done|].
    intros k Hk. lia.
  - case_bool_decide; [discriminate|]. intros Hfound.
    destruct (IH _ Hfound) as (Hle & Hat & Hbefore).
    replace (Z.to_nat (j - j0)) with (S (Z.to_nat (j - (j0 + 1)))) by lia.
    split; [lia|]. split; [done|].
    intros [|k] Hk; simpl; [by intros [= ->]|]. apply Hbefore. lia.
Qed.

(** The search ends without a verdict only on an empty list: the test
    [j == len(rids)-1] is never run then. *)
Lemma searchID_LoopEnded_inv (id j0 : Z) (rids : list Z) :
  searchID id (j0 + Z.of_nat (length rids)) j0 rids = LoopEnded → rids = [].
Proof.
  revert j0. induction rids as [|x rids IH]; intros j0; [done|]. simpl.
  case_bool_decide; [discriminate|]. case_bool_decide as Hlast; [discriminate|].
  replace (j0 + Z.of_nat (S (length rids)))
    with (j0 + 1 + Z.of_nat (length rids)) by lia.
  intros ->%IH. simpl in Hlast. lia.
Qed.

(** ** findOverlapSubs: the flags *)

Lemma store_Returns {A} (s s' : list A) (i : Z) (v : A) :
  store s i v = Returns s' →
  0 ≤ i < Z.of_nat (length s) ∧ s' = <[Z.to_nat i := v]> s.
Proof. unfold store. case_bool_decide; [|discriminate]. by intros [= <-]. Qed.

Lemma index_seqZ (n : nat) (i : nat) :
  (i < n)%nat → index (seqZ 0 (Z.of_nat n)) (Z.of_nat i) = Returns (Z.of_nat i).
Proof.
  intros Hi. apply index_of_nat. by rewrite lookup_seqZ_lt by lia.
Qed.

Lemma flagGroup_spec (sf rids : list Z) (n : nat) (group : list Z) :
  ∀ (i : nat) (isSub flags : list bool),
    (i + length group = n)%nat → length isSub = n →
    flagGroup sf rids (seqZ 0 (Z.of_nat n)) (Z.of_nat i) group isSub = Returns flags →
    length flags = n
    ∧ (∀ k, (k < i)%nat → flags !! k = isSub !! k)
    ∧ (∀ k id, group !! k = Some id →
         flagOf sf rids id (isSub !! (i + k)%nat) (flags !! (i + k)%nat)).
Proof.
  induction group as [|id rest IH]; intros i isSub flags Hlen HisSub; simpl.
  - intros [= <-]. split; [done|]. split; [done|]. intros k id' Hk.
    by rewrite lookup_nil in Hk.
  - simpl in Hlen. rewrite index_seqZ by lia. simpl. intros H.
    apply bind_Returns_inv in H as (isSub' & Hstep & H).
    replace (Z.of_nat i + 1) with (Z.of_nat (S i)) in H by lia.
    assert (length isSub' = n
            ∧ (∀ k, k ≠ i → isSub' !! k = isSub !! k)
            ∧ flagOf sf rids id (isSub !! i) (isSub' !! i)) as (Hlen' & Hother & Hflag).
    { destruct (searchID id (Z.of_nat (length rids)) 0 rids) as [j| |] eqn:Hsearch.
      - apply bind_Returns_inv in Hstep as (hc & Hhc & Hstore).
        apply store_Returns in Hstore as [Hrange ->]. rewrite Nat2Z.id.
        split; [by rewrite length_insert|]. split.
        + intros k Hk. by rewrite list_lookup_insert_ne.
        + rewrite list_lookup_insert_eq by lia. by eapply flagOf_match.
      - discriminate.
      - injection Hstep as <-. split; [done|]. split; [done|].
        apply flagOf_untouched. by apply (searchID_LoopEnded_inv id 0). }
    destruct (IH (S i) isSub' flags) as (Hflags & Hbefore & Hafter); [lia|done|done|].
    split; [done|]. split.
    + intros k Hk. rewrite Hbefore by lia. apply Hother. lia.
    + intros [|k] id'; simpl.
      * intros [= <-]. rewrite Nat.add_0_r. rewrite Hbefore by lia. done.
      * intros Hk. specialize (Hafter k id' Hk).
        replace (i + S k)%nat with (S i + k)%nat by lia.
        rewrite <- (Hother (S i + k)%nat) by lia. done.
Qed.

Lemma bind_Returns_r {A} (m : outcome A) : m ≫= Returns = m.
Proof. by destruct m. Qed.

(** [findOverlapSubs] on a non-empty selection whose pairs all carry one
    snapshot: one header read, one catalog read, one finder run, one pass
    over the selection. *)
Lemma findOverlapSubs_single_unfold e config snapshot (hids : list Z) :
  hids ≠ [] →
  findOverlapSubs e hids (replicate (length hids) snapshot) config
  = hds ← ReadHeaders e snapshot;
    hd ← index hds 0;
    rids ← ReadSortedRockstarIDs e snapshot (-1);
    sf ← FindSubhalos e finderCells (TotalWidth hd) (ReadRockstar e snapshot rids)
           (exclusionRadiusMult config);
    flagGroup sf rids (seqZ 0 (Z.of_nat (length hids))) 0 hids
      (replicate (length hids) false).
Proof.
  intros Hne. unfold findOverlapSubs.
  rewrite groupBySnapshot_single by done. simpl.
  assert (index (replicate (length hids) snapshot) 0 = Returns snapshot) as ->.
  { apply (index_replicate _ _ 0%nat). destruct hids; [done | simpl; lia]. }
  simpl. destruct (ReadHeaders e snapshot) as [hds| |]; [|done|done]. simpl.
  destruct (index hds 0) as [hd| |]; [|done|done]. simpl.
  rewrite rangeOrder_singleton. simpl.
  destruct (ReadSortedRockstarIDs e snapshot (-1)) as [rids| |]; [|done|done]. simpl.
  destruct (FindSubhalos e _ _ _ _) as [sf| |]; [|done|done]. simpl.
  rewrite lookup_singleton_eq. simpl. apply bind_Returns_r.
Qed.

Lemma findOverlapSubs_single e config snapshot (hids : list Z) (flags : list bool) :
  hids ≠ [] →
  findOverlapSubs e hids (replicate (length hids) snapshot) config = Returns flags →
  ∃ rids sf,
    ReadSortedRockstarIDs e snapshot (-1) = Returns rids
    ∧ length flags = length hids
    ∧ ∀ i id, hids !! i = Some id → flagOf sf rids id (Some false) (flags !! i).
Proof.
  intros Hne. rewrite findOverlapSubs_single_unfold by done. intros H.
  apply bind_Returns_inv in H as (hds & _ & H).
  apply bind_Returns_inv in H as (hd & _ & H).
  apply bind_Returns_inv in H as (rids & Hrids & H).
  apply bind_Returns_inv in H as (sf & _ & H).
  exists rids, sf. split; [done|].
  apply (flagGroup_spec sf rids (length hids) hids 0%nat) in H as (Hlen & _ & Hflags);
    [|done|by rewrite length_replicate].
  split; [done|]. intros i id Hi. specialize (Hflags i id Hi). simpl in Hflags.
  rewrite lookup_replicate_2 in Hflags; [done|]. by eapply lookup_lt_Some.
Qed.

(** The flag of a selected ID is found by exact match: when the catalog
    is not empty, it is the verdict of the finder at the first position of
    the sorted-ID list that holds this very ID. *)
Lemma findOverlapSubs_flag_by_exact_match e config snapshot hids flags rids i id :
  findOverlapSubs e hids (replicate (length hids) snapshot) config = Returns flags →
  sortedCatalog e snapshot = Returns rids → rids ≠ [] →
  hids !! i = Some id →
  ∃ (j : nat) (sf : list Z) (hc : Z),
    rids !! j = Some id ∧ (∀ k, (k < j)%nat → rids !! k ≠ Some id)
    ∧ sf !! j = Some hc ∧ flags !! i = Some (bool_decide (hc > 0)).
Proof.
  intros Hfind Hcat Hne Hi.
  assert (hids ≠ []) as Hsel by (intros ->; by rewrite lookup_nil in Hi).
  apply findOverlapSubs_single in Hfind as (rids' & sf & Hrids' & _ & Hflags); [|done].
  unfold ReadSortedRockstarIDs in Hrids'. rewrite Hcat in Hrids'. simpl in Hrids'.
  injection Hrids' as <-.
  destruct (Hflags i id Hi) as [j hc Hsearch Hhc | Hempty]; [|done].
  apply searchID_Found_inv in Hsearch as (Hj & Hat & Hfirst).
  apply index_Returns in Hhc as [_ Hhc]. rewrite Z.sub_0_r in Hat, Hfirst.
  exists (Z.to_nat j), sf, hc. done.
Qed.

(** On a catalog that is not empty, a selected ID that is absent from it
    keeps [findOverlapSubs] from returning flags. *)
Lemma findOverlapSubs_absent_id e config snapshot hids rids id :
  sortedCatalog e snapshot = Returns rids → rids ≠ [] →
  id ∈ hids → id ∉ rids →
  ∀ flags,
    findOverlapSubs e hids (replicate (length hids) snapshot) config ≠ Returns flags.
Proof.
  intros Hcat Hne Hin Hnotin flags Hfind.
  apply list_elem_of_lookup in Hin as [i Hi].
  destruct (findOverlapSubs_flag_by_exact_match _ _ _ _ _ _ _ _ Hfind Hcat Hne Hi)
    as (j & _ & _ & Hj & _).
  apply Hnotin. by eapply list_elem_of_lookup_2.
Qed.

Lemma flagGroup_empty_catalog (sf idxs : list Z) (group : list Z) (isSub : list bool) :
  ∀ i : nat, (i + length group ≤ length idxs)%nat →
    flagGroup sf [] idxs (Z.of_nat i) group isSub = Returns isSub.
Proof.
  induction group as [|id rest IH]; intros i Hi; [done|]. simpl in *.
  destruct (lookup_lt_is_Some_2 idxs i) as [origIdx Horig]; [lia|].
  rewrite (index_of_nat _ _ _ Horig). simpl.
  replace (Z.of_nat i + 1) with (Z.of_nat (S i)) by lia. apply IH. lia.
Qed.

(** C5, where the code falls short of it.  When the snapshot's catalog
    has no halo at all, every selected ID is absent from it, yet
    [findOverlapSubs] returns flags, all false, and no error: the search
    loop makes no iteration, so its "not in halo list" test is never run.
    (On a non-empty catalog the flag is found by exact ID match and an
    absent ID stops the function: [findOverlapSubs_flag_by_exact_match],
    [findOverlapSubs_absent_id].) *)
Theorem findOverlapSubs_empty_catalog_no_error (e : Environment) (config : IDConfig)
    (hids : list Z) (snapshot : Z) (hd : Header) (more : list Header) (sf : list Z) :
  hids ≠ [] →
  sortedCatalog e snapshot = Returns [] →
  ReadHeaders e snapshot = Returns (hd :: more) →
  FindSubhalos e finderCells (TotalWidth hd) (ReadRockstar e snapshot [])
    (exclusionRadiusMult config) = Returns sf →
  findOverlapSubs e hids (replicate (length hids) snapshot) config
  = Returns (replicate (length hids) false).
Proof.
  intros Hne Hcat Hhds Hsf. rewrite findOverlapSubs_single_unfold by done.
  rewrite Hhds. simpl. unfold ReadSortedRockstarIDs. rewrite Hcat. simpl.
  rewrite Hsf. simpl.
  apply (flagGroup_empty_catalog sf _ hids _ 0%nat).
  rewrite length_seqZ. lia.
Qed.

Lemma findOverlapSubs_empty_catalog_no_error_witness :
  findOverlapSubs sampleEnv [5] [12] (sampleConfig "halo-id" [5] 12 1 "overlap" 1%float)
  = Returns [false].
Proof.
  apply (findOverlapSubs_empty_catalog_no_error sampleEnv
           (sampleConfig "halo-id" [5] 12 1 "overlap" 1%float) [5] 12
           {| TotalWidth := 100%float |} [] [0; 1; 0; 0; 0]);
    [discriminate | reflexivity | reflexivity | reflexivity].
Defined.

(** ** The lines of a successful run *)

Lemma FormatCols_ID_Snapshot (hids : list Z) (snapshot : Z) :
  FormatCols [hids; replicate (length hids) snapshot] [] [0; 1]
  = (λ id, DataLine [id; snapshot]) <$> hids.
Proof.
  unfold FormatCols. simpl. apply list_eq. intros i.
  rewrite !list_lookup_fmap.
  destruct (hids !! i) as [id|] eqn:Hid; simpl.
  - pose proof (lookup_lt_Some _ _ _ Hid) as Hi.
    rewrite lookup_seq_lt by done. simpl. rewrite Hid.
    by rewrite lookup_replicate_2.
  - apply lookup_ge_None in Hid. by rewrite lookup_seq_ge.
Qed.

Lemma filterLines_zip {A} (lines : list A) :
  ∀ (pre ex : list bool) (fLines : list A),
    length ex = length lines →
    filterLines (pre ++ ex) (Z.of_nat (length pre)) lines fLines
    = Returns (fLines ++ (zip lines ex ≫= λ p : A * bool, if p.2 then [] else [p.1])).
Proof.
  induction lines as [|l rest IH]; intros pre ex fLines Hlen; simpl.
  - by rewrite app_nil_r.
  - destruct ex as [|x ex]; [done|]. simpl in Hlen.
    rewrite (index_of_nat _ _ x) by (by apply list_lookup_middle); simpl.
    specialize (IH (pre ++ [x]) ex (if x then fLines else fLines ++ [l])).
    rewrite length_app, <- app_assoc in IH. simpl in IH.
    rewrite Nat2Z.inj_add in IH. change (Z.of_nat 1) with 1 in IH.
    rewrite IH by lia.
    destruct x; [done|]. by rewrite <- app_assoc.
Qed.

Lemma multiplyLines_survivors {A B} (f : A → B) (mult : Z) (hids : list A) :
  ∀ ex : list bool,
    multiplyLines mult (zip (f <$> hids) ex ≫= λ p : B * bool, if p.2 then [] else [p.1])
    = zip hids ex ≫= λ p : A * bool, if p.2 then [] else replicate (Z.to_nat mult) (f p.1).
Proof.
  intros ex. rewrite multiplyLines_bind. revert ex.
  induction hids as [|id rest IH]; intros [|x ex]; try done.
  rewrite fmap_cons. cbn [zip_with]. rewrite !bind_cons, bind_app, IH. cbn [fst snd].
  destruct x; [done|]. by rewrite bind_singleton.
Qed.

Lemma Run_lines_output config (hids : list Z) (exclude : list bool) :
  length exclude = length hids →
  Run_lines config hids (replicate (length hids) (snap config)) exclude
  = Returns (CommentLine ["ID"; "Snapshot"] [] [0; 1] [1; 1]
             :: (zip hids exclude ≫= λ p : Z * bool,
                   if p.2 then []
                   else replicate (Z.to_nat (mult config))
                          (DataLine [p.1; snap config]))).
Proof.
  intros Hlen. unfold Run_lines. cbv zeta. rewrite FormatCols_ID_Snapshot.
  rewrite (filterLines_zip _ [] exclude []) by by rewrite length_fmap.
  simpl. do 2 f_equal.
  apply (multiplyLines_survivors (λ id, DataLine [id; snap config])).
Qed.

Lemma Run_exclude_length config e (hids : list Z) (exclude : list bool) :
  hids ≠ [] →
  Run_exclude config e hids (replicate (length hids) (snap config)) = Returns exclude →
  length exclude = length hids.
Proof.
  intros Hne. unfold Run_exclude.
  assert (length (replicate (length hids) false) = length hids) as Hrep
    by apply length_replicate.
  repeat case_bool_decide; try (by intros [= <-]).
  intros Hfind. by apply findOverlapSubs_single in Hfind as (_ & _ & _ & Hlen & _).
Qed.

(** What a successful run went through, and what it returns. *)
Lemma Run_Returns_inv config gConfig e (out : list line) :
  Run config gConfig e = Returns out →
  ∃ (hids : list Z) (exclude : list bool),
    hids ≠ []
    ∧ Run_resolve config gConfig e
      = Returns (hids, replicate (length hids) (snap config))
    ∧ Run_exclude config e hids (replicate (length hids) (snap config))
      = Returns exclude
    ∧ length exclude = length hids
    ∧ out = CommentLine ["ID"; "Snapshot"] [] [0; 1] [1; 1]
            :: (zip hids exclude ≫= λ p : Z * bool,
                  if p.2 then []
                  else replicate (Z.to_nat (mult config))
                         (DataLine [p.1; snap config])).
Proof.
  unfold Run. intros H.
  apply bind_Returns_inv in H as ([hids snaps] & Hres & H).
  apply bind_Returns_inv in H as (exclude & Hex & H).
  destruct (Run_resolve_inv _ _ _ _ _ Hres) as (rawIds & _ & Hne & -> & Hlen & _).
  rewrite <- Hlen in *.
  assert (hids ≠ []) as Hne' by (intros ->; by destruct rawIds).
  pose proof (Run_exclude_length _ _ _ _ Hne' Hex) as Hexlen.
  rewrite Run_lines_output in H by done. injection H as <-.
  exists hids, exclude. done.
Qed.

(** C6.  The output of a successful run is one comment line, which names
    the columns "ID" and "Snapshot" and gives their order and widths,
    followed, for each selected pair in selection order, by nothing when
    the pair is excluded and otherwise by [mult] copies of the data line
    that holds the halo ID and then the snapshot. *)
Theorem Run_output_rows (config : IDConfig) (gConfig : GlobalConfig)
    (e : Environment) (out : list line) :
  Run config gConfig e = Returns out →
  ∃ (hids : list Z) (exclude : list bool),
    Run_resolve config gConfig e = Returns (hids, replicate (length hids) (snap config))
    ∧ Run_exclude config e hids (replicate (length hids) (snap config))
      = Returns exclude
    ∧ length exclude = length hids
    ∧ out = CommentLine ["ID"; "Snapshot"] [] [0; 1] [1; 1]
            :: (zip hids exclude ≫= λ p : Z * bool,
                  if p.2 then []
                  else replicate (Z.to_nat (mult config))
                         (DataLine [p.1; snap config])).
Proof.
  intros H. apply Run_Returns_inv in H as (hids & exclude & _ & H).
  exists hids, exclude. exact H.
Qed.

Lemma Run_output_rows_witness :
  ∃ (hids : list Z) (exclude : list bool),
    Run_resolve (sampleConfig "m200m" [0; 1; 2] 10 2 "overlap" 1%float)
      sampleGlobal sampleEnv
    = Returns (hids, replicate (length hids) 10)
    ∧ Run_exclude (sampleConfig "m200m" [0; 1; 2] 10 2 "overlap" 1%float)
        sampleEnv hids (replicate (length hids) 10)
      = Returns exclude
    ∧ length exclude = length hids
    ∧ [CommentLine ["ID"; "Snapshot"] [] [0; 1] [1; 1];
       DataLine [7; 10]; DataLine [7; 10]; DataLine [9; 10]; DataLine [9; 10]]
      = CommentLine ["ID"; "Snapshot"] [] [0; 1] [1; 1]
        :: (zip hids exclude ≫= λ p : Z * bool,
              if p.2 then [] else replicate (Z.to_nat 2) (DataLine [p.1; 10])).
Proof.
  apply (Run_output_rows (sampleConfig "m200m" [0; 1; 2] 10 2 "overlap" 1%float)
           sampleGlobal sampleEnv).
  reflexivity.
Defined.

(** ** One snapshot per run *)

(** C10.  Both branches of the [switch config.idType] fill [snaps] with
    [config.snap].  So in a run that gets past the resolution, every entry
    of [snaps] is [config.snap]; the grouping loop of [findOverlapSubs],
    run on the resolved pairs, yields a map with exactly one key,
    [config.snap], whose group is the whole selection; and in every data
    line of the output the second cell, the Snapshot column, is
    [config.snap]. *)
Theorem Run_single_snapshot (config : IDConfig) (gConfig : GlobalConfig)
    (e : Environment) (hids snaps : list Z) :
  Run_resolve config gConfig e = Returns (hids, snaps) →
  (∀ s, s ∈ snaps → s = snap config)
  ∧ length snaps = length hids
  ∧ (∃ groupIdxs,
       groupBySnapshot snaps 0 hids ∅ ∅ = Returns ({[ snap config := hids ]}, groupIdxs)
       ∧ size ({[ snap config := hids ]} : gmap Z (list Z)) = 1%nat)
  ∧ (∀ out cells, Run config gConfig e = Returns out → DataLine cells ∈ out →
       ∃ id, cells = [id; snap config]).
Proof.
  intros Hres.
  destruct (Run_resolve_inv _ _ _ _ _ Hres) as (rawIds & _ & Hne & -> & Hlen & _).
  rewrite <- Hlen.
  assert (hids ≠ []) as Hne' by (intros ->; by destruct rawIds).
  split; [|split; [|split]].
  - intros s Hs. by apply elem_of_replicate_inv in Hs.
  - apply length_replicate.
  - eexists. split; [by apply groupBySnapshot_single|]. apply map_size_singleton.
  - intros out cells HRun Hin.
    apply Run_Returns_inv in HRun as (hids' & exclude & _ & _ & _ & _ & ->).
    apply elem_of_cons in Hin as [Hin|Hin]; [discriminate|].
    apply list_elem_of_bind in Hin as ([id ex] & Hin & _). simpl in Hin.
    destruct ex; [by apply elem_of_nil in Hin|].
    apply elem_of_replicate_inv in Hin. injection Hin as ->. by exists id.
Qed.

Lemma Run_single_snapshot_witness :
  (∀ s, s ∈ [10; 10; 10] → s = 10)
  ∧ length [10; 10; 10] = length [7; 3; 9]
  ∧ (∃ groupIdxs,
       groupBySnapshot [10; 10; 10] 0 [7; 3; 9] ∅ ∅
       = Returns ({[ 10 := [7; 3; 9] ]}, groupIdxs)
       ∧ size ({[ 10 := [7; 3; 9] ]} : gmap Z (list Z)) = 1%nat)
  ∧ (∀ out cells,
       Run (sampleConfig "m200m" [0; 1; 2] 10 2 "overlap" 1%float) sampleGlobal sampleEnv
       = Returns out →
       DataLine cells ∈ out → ∃ id, cells = [id; 10]).
Proof.
  apply (Run_single_snapshot (sampleConfig "m200m" [0; 1; 2] 10 2 "overlap" 1%float)
           sampleGlobal sampleEnv [7; 3; 9] [10; 10; 10]).
  reflexivity.
Defined.

(** ** The overlap finder: directionality *)

Module FinderFacts.
Import Finder.
#[local] Open Scope Q_scope.









Section two_halos.
Variables (cells : Z) (L : Q) (A B : Halo).
Hypothesis radius_A : hradius A == 10.
Hypothesis radius_B : hradius B == 2.
Hypothesis apart : dist2 L A B == 25.







End two_halos.

End FinderFacts.




(** * Further properties of cmd/id.go *)

(** ** validate: what is accepted *)

Lemma validate_Returns_inv (config : IDConfig) :
  validate config = Returns () →
  (idType config = "halo-id" ∨ idType config = "m200m")
  ∧ (exclusionStrategy config = "none" ∨ exclusionStrategy config = "subhalo"
     ∨ (exclusionStrategy config = "overlap"
        ∧ (exclusionRadiusMult config <=? 0)%float = false))
  ∧ (ids config ≠ []
     ∨ (idStart config ≠ -1 ∧ idEnd config ≠ -1 ∧ idStart config ≤ idEnd config))
  ∧ 0 ≤ snap config ∧ 1 ≤ mult config.
Proof.
  unfold validate. intros H.
  apply bind_Returns_inv in H as ([] & Htype & H).
  apply bind_Returns_inv in H as ([] & Hstrategy & H).
  apply bind_Returns_inv in H as ([] & Hids & H).
  apply bind_Returns_inv in H as ([] & Hsnap & H).
  split; [|split; [|split; [|split]]].
  - destruct (bool_decide (idType config = "halo-id")) eqn:H1;
      [apply bool_decide_eq_true in H1; by left|].
    destruct (bool_decide (idType config = "m200m")) eqn:H2;
      [apply bool_decide_eq_true in H2; by right|].
    discriminate Htype.
  - destruct (bool_decide (exclusionStrategy config = "none")) eqn:H1;
      [apply bool_decide_eq_true in H1; by left|].
    destruct (bool_decide (exclusionStrategy config = "subhalo")) eqn:H2;
      [apply bool_decide_eq_true in H2; right; by left|].
    simpl in Hstrategy.
    destruct (bool_decide (exclusionStrategy config = "overlap")) eqn:H3;
      [apply bool_decide_eq_true in H3 | discriminate].
    destruct (exclusionRadiusMult config <=? 0)%float; [discriminate|].
    right; right. done.
  - clear Htype Hstrategy Hsnap H.
    case_bool_decide as Hlen; [|left; intros Hnil; by rewrite Hnil in Hlen].
    right. destruct (bool_decide (idStart config = -1)) eqn:H1;
      destruct (bool_decide (idEnd config = -1)) eqn:H2; simpl in Hids;
      try discriminate.
    apply bool_decide_eq_false in H1, H2.
    case_bool_decide; [discriminate|]. split; [done|]. split; [done|]. lia.
  - clear Htype Hstrategy Hids H. repeat case_bool_decide; try discriminate. lia.
  - clear Htype Hstrategy Hids Hsnap. case_bool_decide; [discriminate|]. lia.
Qed.

Lemma validate_Returns_intro (config : IDConfig) :
  (idType config = "halo-id" ∨ idType config = "m200m") →
  (exclusionStrategy config = "none" ∨ exclusionStrategy config = "subhalo"
   ∨ (exclusionStrategy config = "overlap"
      ∧ (exclusionRadiusMult config <=? 0)%float = false)) →
  (ids config ≠ []
   ∨ (idStart config ≠ -1 ∧ idEnd config ≠ -1 ∧ idStart config ≤ idEnd config)) →
  0 ≤ snap config → 1 ≤ mult config →
  validate config = Returns ().
Proof.
  intros Htype Hstrategy Hids Hsnap Hmult. unfold validate.
  assert (bool_decide (idType config = "halo-id")
          || bool_decide (idType config = "m200m") = true) as ->.
  { destruct Htype as [-> | ->]; done. }
  simpl.
  assert ((if bool_decide (exclusionStrategy config = "none")
              || bool_decide (exclusionStrategy config = "subhalo")
           then Returns ()
           else if bool_decide (exclusionStrategy config = "overlap")
           then (if (exclusionRadiusMult config <=? 0)%float
                 then Fails (ErrExclusionRadiusMult (exclusionRadiusMult config))
                 else Returns ())
           else Fails (ErrExclusionStrategy (exclusionStrategy config)))
          = Returns ()) as ->.
  { destruct Hstrategy as [-> | [-> | [-> ->]]]; done. }
  simpl.
  assert ((if bool_decide (length (ids config) = 0%nat)
           then (if bool_decide (idStart config = -1) && bool_decide (idEnd config = -1)
                 then Fails ErrIDsNotSet
                 else if bool_decide (idStart config = -1) then Fails ErrIDStartNotSet
                 else if bool_decide (idEnd config = -1) then Fails ErrIDEndNotSet
                 else if bool_decide (idEnd config < idStart config)
                 then Fails (ErrIDEndBeforeStart (idEnd config) (idStart config))
                 else Returns ())
           else Returns ()) = Returns ()) as ->.
  { case_bool_decide as Hlen; [|done].
    destruct Hids as [Hne | (Hs & He & Hle)].
    - by destruct (ids config).
    - rewrite (bool_decide_false (idStart config = -1)) by done.
      rewrite (bool_decide_false (idEnd config = -1)) by done.
      rewrite bool_decide_false by lia. done. }
  simpl. rewrite (bool_decide_false (snap config = -1)) by lia.
  rewrite (bool_decide_false (snap config < 0)) by lia. simpl.
  rewrite bool_decide_false by lia. done.
Qed.

(** X1.  [validate] returns nil exactly for the configurations with a
    known [IDType], a known strategy (with a multiplier that is not [<= 0]
    when the strategy is "overlap"), a selection (a non-empty [IDs], or
    both [IDStart] and [IDEnd] set with [IDStart <= IDEnd]), a snapshot
    [>= 0] and a multiplicity [>= 1]. *)
Theorem validate_accepts_iff (config : IDConfig) :
  validate config = Returns () ↔
  (idType config = "halo-id" ∨ idType config = "m200m")
  ∧ (exclusionStrategy config = "none" ∨ exclusionStrategy config = "subhalo"
     ∨ (exclusionStrategy config = "overlap"
        ∧ (exclusionRadiusMult config <=? 0)%float = false))
  ∧ (ids config ≠ []
     ∨ (idStart config ≠ -1 ∧ idEnd config ≠ -1 ∧ idStart config ≤ idEnd config))
  ∧ 0 ≤ snap config ∧ 1 ≤ mult config.
Proof.
  split.
  - apply validate_Returns_inv.
  - intros (H1 & H2 & H3 & H4 & H5). by apply validate_Returns_intro.
Qed.

(** A NaN compares false with everything. *)
Lemma nan_not_leb (f g : float) : is_nan f = true → (f <=? g)%float = false.
Proof.
  intros Hnan. rewrite leb_spec. unfold Prim2SF at 1. by rewrite Hnan.
Qed.

(** X2.  The positivity check of the multiplier is [mult <= 0], which is
    false for a NaN: with strategy "overlap" a NaN multiplier is not
    rejected, and [validate] gives the verdict it gives for "none". *)
Theorem validate_accepts_nan_multiplier (config : IDConfig) :
  exclusionStrategy config = "overlap" →
  is_nan (exclusionRadiusMult config) = true →
  validate config = validate (with_exclusionStrategy config "none").
Proof.
  intros Hs Hnan. unfold validate. simpl. rewrite Hs.
  by rewrite (nan_not_leb _ _ Hnan).
Qed.

Lemma validate_accepts_nan_multiplier_witness :
  validate (sampleConfig "m200m" [0] 10 1 "overlap" nan) = Returns ().
Proof.
  rewrite (validate_accepts_nan_multiplier (sampleConfig "m200m" [0] 10 1 "overlap" nan));
    reflexivity.
Defined.

(** ** Run: selections that panic *)

Lemma index_Returns_or_panics {A} (s : list A) (i : Z) :
  (∃ a, index s i = Returns a) ∨ index s i = Panics PanicIndexOutOfRange.
Proof.
  unfold index. case_bool_decide; [|by right].
  destruct (s !! Z.to_nat i); [left; by eexists | by right].
Qed.

Lemma getIDs_negative_span (idStart idEnd : Z) (ids : list Z) :
  idStart ≠ -1 → idEnd < idStart → - 2 ^ 63 ≤ idEnd - idStart →
  getIDs idStart idEnd ids = Panics PanicMakeSliceLen.
Proof.
  intros Hne Hlt Hspan. unfold getIDs. rewrite bool_decide_true by done. cbv zeta.
  rewrite wrap64_id by (unfold int64_range; lia).
  by rewrite bool_decide_true by lia.
Qed.

Lemma Run_getIDs_panics config gConfig e (p : panic) :
  snap config ≠ -1 → SnapMin gConfig ≤ snap config ≤ SnapMax gConfig →
  getIDs (idStart config) (idEnd config) (ids config) = Panics p →
  Run config gConfig e = Panics p.
Proof.
  intros Hset Hrange Hget. unfold Run, Run_resolve.
  rewrite bool_decide_false by done.
  rewrite (bool_decide_false (snap config < SnapMin gConfig)) by lia.
  rewrite (bool_decide_false (snap config > SnapMax gConfig)) by lia.
  simpl. by rewrite Hget.
Qed.

(** X3.  [validate] checks [IDEnd >= IDStart] only when [IDs] is empty,
    but [getIDs] builds the range whenever [IDStart] is set, [IDs] or not.
    So a configuration that passed [validate] with [IDStart] set and
    [IDEnd < IDStart] makes [Run] panic in [make] with a negative length
    (the snapshot being in the global range, and the difference fitting in
    64 bits). *)
Theorem Run_validated_reversed_range_panics (config : IDConfig)
    (gConfig : GlobalConfig) (e : Environment) :
  validate config = Returns () →
  idStart config ≠ -1 → idEnd config < idStart config →
  - 2 ^ 63 ≤ idEnd config - idStart config →
  SnapMin gConfig ≤ snap config ≤ SnapMax gConfig →
  ids config ≠ [] ∧ Run config gConfig e = Panics PanicMakeSliceLen.
Proof.
  intros Hvalid Hset Hlt Hspan Hrange.
  apply validate_Returns_inv in Hvalid as (_ & _ & Hids & Hsnap & _).
  split; [destruct Hids as [? | (_ & _ & ?)]; [done | lia]|].
  apply Run_getIDs_panics; [lia | done |].
  by apply getIDs_negative_span.
Qed.

Lemma Run_validated_reversed_range_panics_witness :
  validate {| idType := "halo-id"; ids := [7]; idStart := 5; idEnd := 2; snap := 10;
              mult := 1; exclusionStrategy := "none"; exclusionRadiusMult := 1%float |}
  = Returns ()
  ∧ Run {| idType := "halo-id"; ids := [7]; idStart := 5; idEnd := 2; snap := 10;
           mult := 1; exclusionStrategy := "none"; exclusionRadiusMult := 1%float |}
      sampleGlobal sampleEnv
    = Panics PanicMakeSliceLen.
Proof.
  split; [reflexivity|].
  apply (Run_validated_reversed_range_panics
           {| idType := "halo-id"; ids := [7]; idStart := 5; idEnd := 2; snap := 10;
              mult := 1; exclusionStrategy := "none"; exclusionRadiusMult := 1%float |}
           sampleGlobal sampleEnv);
    [reflexivity | done | simpl; lia | simpl; lia | simpl; lia].
Defined.

(** X4.  An empty selection never gives output: when [getIDs] yields no ID
    (for instance [IDStart = IDEnd], which [validate] accepts), [Run]
    panics with an index out of range, at [snaps[0]] at the latest. *)
Theorem Run_empty_selection_panics (config : IDConfig) (gConfig : GlobalConfig)
    (e : Environment) :
  snap config ≠ -1 → SnapMin gConfig ≤ snap config ≤ SnapMax gConfig →
  idType config = "halo-id" ∨ idType config = "m200m" →
  getIDs (idStart config) (idEnd config) (ids config) = Returns [] →
  Run config gConfig e = Panics PanicIndexOutOfRange.
Proof.
  intros Hset Hrange Htype Hget. unfold Run, Run_resolve.
  rewrite bool_decide_false by done.
  rewrite (bool_decide_false (snap config < SnapMin gConfig)) by lia.
  rewrite (bool_decide_false (snap config > SnapMax gConfig)) by lia.
  simpl. rewrite Hget. simpl.
  destruct (index_Returns_or_panics (HaloPositionColumns gConfig) 0) as [[x ->] | ->];
    [simpl | done].
  destruct (index_Returns_or_panics (HaloPositionColumns gConfig) 1) as [[y ->] | ->];
    [simpl | done].
  destruct (index_Returns_or_panics (HaloPositionColumns gConfig) 2) as [[z ->] | ->];
    [simpl | done].
  destruct Htype as [-> | ->]; done.
Qed.

Lemma Run_empty_selection_panics_witness :
  validate {| idType := "m200m"; ids := []; idStart := 3; idEnd := 3; snap := 10;
              mult := 1; exclusionStrategy := "none"; exclusionRadiusMult := 1%float |}
  = Returns ()
  ∧ Run {| idType := "m200m"; ids := []; idStart := 3; idEnd := 3; snap := 10;
           mult := 1; exclusionStrategy := "none"; exclusionRadiusMult := 1%float |}
      sampleGlobal sampleEnv
    = Panics PanicIndexOutOfRange.
Proof.
  split; [reflexivity|].
  apply (Run_empty_selection_panics
           {| idType := "m200m"; ids := []; idStart := 3; idEnd := 3; snap := 10;
              mult := 1; exclusionStrategy := "none"; exclusionRadiusMult := 1%float |}
           sampleGlobal sampleEnv);
    [done | simpl; lia | by right | reflexivity].
Defined.

(** ** Run: what a successful run needed *)

(** X5.  A run that returns lines had its snapshot set and inside
    [[SnapMin, SnapMax]], a known [IDType], three position columns in the
    global configuration, a non-empty selection from [getIDs], a vector
    buffer for its snapshot, and a strategy other than "subhalo". *)
Theorem Run_Returns_requirements (config : IDConfig) (gConfig : GlobalConfig)
    (e : Environment) (out : list line) :
  Run config gConfig e = Returns out →
  snap config ≠ -1
  ∧ SnapMin gConfig ≤ snap config ≤ SnapMax gConfig
  ∧ (idType config = "halo-id" ∨ idType config = "m200m")
  ∧ (3 ≤ length (HaloPositionColumns gConfig))%nat
  ∧ (∃ rawIds, getIDs (idStart config) (idEnd config) (ids config) = Returns rawIds
       ∧ rawIds ≠ [])
  ∧ (∃ buf, getVectorBuffer e (snap config) = Returns buf)
  ∧ exclusionStrategy config ≠ "subhalo".
Proof.
  intros HRun.
  assert (exclusionStrategy config ≠ "subhalo") as Hstrategy.
  { intros Hs. by apply (Run_subhalo_no_lines config gConfig e Hs out). }
  unfold Run in HRun. apply bind_Returns_inv in HRun as ([hids snaps] & H & _).
  unfold Run_resolve in H.
  case_bool_decide as Hset; [discriminate|].
  destruct (bool_decide (snap config < SnapMin gConfig)) eqn:Hmin; [discriminate|].
  destruct (bool_decide (snap config > SnapMax gConfig)) eqn:Hmax; [discriminate|].
  apply bool_decide_eq_false in Hmin, Hmax. simpl in H.
  apply bind_Returns_inv in H as (rawIds & HrawIds & H).
  apply bind_Returns_inv in H as (x & _ & H).
  apply bind_Returns_inv in H as (y & _ & H).
  apply bind_Returns_inv in H as (z & [_ Hz]%index_Returns & H).
  apply lookup_lt_Some in Hz.
  cbv zeta in H. rewrite fillSnaps_make in H.
  assert (∀ s0, index (replicate (length rawIds) (snap config)) 0 = Returns s0 →
                rawIds ≠ [] ∧ s0 = snap config) as Hs0.
  { intros s0 [_ Hs0]%index_Returns. split.
    - intros ->. discriminate Hs0.
    - by apply lookup_replicate_1 in Hs0 as [-> _]. }
  split; [done|]. split; [lia|].
  case_bool_decide as Hhalo.
  - apply bind_Returns_inv in H as (s0 & [Hne ->]%Hs0 & H).
    apply bind_Returns_inv in H as (buf & Hbuf & _).
    split; [by left|]. split; [simpl in Hz; lia|]. eauto 10.
  - case_bool_decide as Hm200m; [|discriminate].
    apply bind_Returns_inv in H as (s0 & [Hne ->]%Hs0 & H).
    apply bind_Returns_inv in H as (buf & Hbuf & _).
    split; [by right|]. split; [simpl in Hz; lia|]. eauto 10.
Qed.

Lemma Run_Returns_requirements_witness :
  snap (sampleConfig "m200m" [0; 1; 2] 10 1 "none" 1%float) ≠ -1
  ∧ SnapMin sampleGlobal ≤ snap (sampleConfig "m200m" [0; 1; 2] 10 1 "none" 1%float)
    ≤ SnapMax sampleGlobal
  ∧ (idType (sampleConfig "m200m" [0; 1; 2] 10 1 "none" 1%float) = "halo-id"
     ∨ idType (sampleConfig "m200m" [0; 1; 2] 10 1 "none" 1%float) = "m200m")
  ∧ (3 ≤ length (HaloPositionColumns sampleGlobal))%nat
  ∧ (∃ rawIds,
       getIDs (idStart (sampleConfig "m200m" [0; 1; 2] 10 1 "none" 1%float))
         (idEnd (sampleConfig "m200m" [0; 1; 2] 10 1 "none" 1%float))
         (ids (sampleConfig "m200m" [0; 1; 2] 10 1 "none" 1%float)) = Returns rawIds
       ∧ rawIds ≠ [])
  ∧ (∃ buf, getVectorBuffer sampleEnv
              (snap (sampleConfig "m200m" [0; 1; 2] 10 1 "none" 1%float)) = Returns buf)
  ∧ exclusionStrategy (sampleConfig "m200m" [0; 1; 2] 10 1 "none" 1%float) ≠ "subhalo".
Proof.
  apply (Run_Returns_requirements (sampleConfig "m200m" [0; 1; 2] 10 1 "none" 1%float)
           sampleGlobal sampleEnv
           [CommentLine ["ID"; "Snapshot"] [] [0; 1] [1; 1];
            DataLine [7; 10]; DataLine [3; 10]; DataLine [9; 10]]).
  reflexivity.
Defined.

(** ** Run: the strategies *)

(** X6.  The [switch] on the strategy in [Run] has no default case: a
    strategy that is neither "subhalo" nor "overlap", known or not, runs
    exactly like "none". *)
Theorem Run_unknown_strategy_as_none (config : IDConfig) (gConfig : GlobalConfig)
    (e : Environment) :
  exclusionStrategy config ≠ "subhalo" → exclusionStrategy config ≠ "overlap" →
  Run config gConfig e = Run (with_exclusionStrategy config "none") gConfig e.
Proof.
  intros Hsub Hover. unfold Run.
  change (Run_resolve (with_exclusionStrategy config "none") gConfig e)
    with (Run_resolve config gConfig e).
  destruct (Run_resolve config gConfig e) as [[hids snaps]| |]; [|done|done]. simpl.
  unfold Run_exclude. simpl.
  rewrite (bool_decide_false (exclusionStrategy config = "subhalo")) by done.
  rewrite (bool_decide_false (exclusionStrategy config = "overlap")) by done.
  by destruct (bool_decide (exclusionStrategy config = "none")).
Qed.

Lemma Run_unknown_strategy_as_none_witness :
  Run (sampleConfig "m200m" [0; 1] 10 1 "friends-of-friends" 1%float) sampleGlobal sampleEnv
  = Returns [CommentLine ["ID"; "Snapshot"] [] [0; 1] [1; 1];
             DataLine [7; 10]; DataLine [3; 10]].
Proof.
  rewrite (Run_unknown_strategy_as_none
             (sampleConfig "m200m" [0; 1] 10 1 "friends-of-friends" 1%float)
             sampleGlobal sampleEnv); [reflexivity | done | done].
Defined.

(** ** Run: the output without exclusion *)

Lemma bind_zip_no_exclusion {A B} (f : A → list B) (hids : list A) :
  (zip hids (replicate (length hids) false) ≫= λ p : A * bool, if p.2 then [] else f p.1)
  = hids ≫= f.
Proof.
  induction hids as [|id rest IH]; [done|].
  simpl length. simpl replicate. cbn [zip_with]. by rewrite !bind_cons, IH.
Qed.

Lemma Run_exclude_no_exclusion config e (hids snaps : list Z) :
  exclusionStrategy config ≠ "subhalo" → exclusionStrategy config ≠ "overlap" →
  Run_exclude config e hids snaps = Returns (replicate (length hids) false).
Proof.
  intros Hsub Hover. unfold Run_exclude.
  rewrite (bool_decide_false (exclusionStrategy config = "subhalo")) by done.
  rewrite (bool_decide_false (exclusionStrategy config = "overlap")) by done.
  by destruct (bool_decide (exclusionStrategy config = "none")).
Qed.

Lemma Run_no_exclusion_output config gConfig e (hids snaps : list Z) :
  exclusionStrategy config ≠ "subhalo" → exclusionStrategy config ≠ "overlap" →
  Run_resolve config gConfig e = Returns (hids, snaps) →
  Run config gConfig e
  = Returns (CommentLine ["ID"; "Snapshot"] [] [0; 1] [1; 1]
             :: (hids ≫= λ id, replicate (Z.to_nat (mult config))
                                 (DataLine [id; snap config]))).
Proof.
  intros Hsub Hover Hres.
  destruct (Run_resolve_inv _ _ _ _ _ Hres) as (rawIds & _ & _ & -> & Hlen & _).
  unfold Run. rewrite Hres. simpl.
  rewrite Run_exclude_no_exclusion by done. simpl. rewrite <- Hlen.
  rewrite Run_lines_output by apply length_replicate.
  do 2 f_equal.
  apply (bind_zip_no_exclusion
           (λ id, replicate (Z.to_nat (mult config)) (DataLine [id; snap config]))).
Qed.

Lemma index_in_range {A} (s : list A) (i : Z) :
  0 ≤ i < Z.of_nat (length s) → ∃ a, index s i = Returns a.
Proof.
  intros Hi. destruct (lookup_lt_is_Some_2 s (Z.to_nat i)) as [a Ha]; [lia|].
  exists a. apply index_Returns. split; [lia | done].
Qed.

(** The steps of [Run] up to the [switch config.idType], when they all
    succeed. *)
Lemma Run_resolve_steps config gConfig e (rawIds : list Z) (buf : VectorBuffer) :
  snap config ≠ -1 → SnapMin gConfig ≤ snap config ≤ SnapMax gConfig →
  getIDs (idStart config) (idEnd config) (ids config) = Returns rawIds →
  rawIds ≠ [] →
  (3 ≤ length (HaloPositionColumns gConfig))%nat →
  getVectorBuffer e (snap config) = Returns buf →
  Run_resolve config gConfig e
  = if bool_decide (idType config = "halo-id")
    then Returns (rawIds, replicate (length rawIds) (snap config))
    else if bool_decide (idType config = "m200m")
    then ids ← convertSortedIDs e rawIds (snap config);
         Returns (ids, replicate (length rawIds) (snap config))
    else Panics PanicImpossible.
Proof.
  intros Hset Hrange Hget Hne Hcols Hbuf. unfold Run_resolve.
  rewrite bool_decide_false by done.
  rewrite (bool_decide_false (snap config < SnapMin gConfig)) by lia.
  rewrite (bool_decide_false (snap config > SnapMax gConfig)) by lia.
  simpl. rewrite Hget. simpl.
  destruct (index_in_range (HaloPositionColumns gConfig) 0) as [x ->]; [lia|].
  destruct (index_in_range (HaloPositionColumns gConfig) 1) as [y ->]; [lia|].
  destruct (index_in_range (HaloPositionColumns gConfig) 2) as [z ->]; [lia|].
  simpl. rewrite fillSnaps_make.
  assert (index (replicate (length rawIds) (snap config)) 0 = Returns (snap config))
    as ->.
  { apply (index_replicate _ _ 0%nat). destruct rawIds; [done | simpl; lia]. }
  simpl. rewrite Hbuf. simpl. done.
Qed.

(** X7.  In halo-id mode without exclusion, [Run] passes the raw IDs
    through: given a snapshot in range, three position columns, a
    non-empty selection and a vector buffer, it returns the comment line
    and then, for each raw ID in order, [mult] copies of the line
    [[id, snap]].  No catalog is read. *)
Theorem Run_halo_id_passthrough (config : IDConfig) (gConfig : GlobalConfig)
    (e : Environment) (rawIds : list Z) (buf : VectorBuffer) :
  idType config = "halo-id" →
  exclusionStrategy config ≠ "subhalo" → exclusionStrategy config ≠ "overlap" →
  snap config ≠ -1 → SnapMin gConfig ≤ snap config ≤ SnapMax gConfig →
  getIDs (idStart config) (idEnd config) (ids config) = Returns rawIds →
  rawIds ≠ [] →
  (3 ≤ length (HaloPositionColumns gConfig))%nat →
  getVectorBuffer e (snap config) = Returns buf →
  Run config gConfig e
  = Returns (CommentLine ["ID"; "Snapshot"] [] [0; 1] [1; 1]
             :: (rawIds ≫= λ id, replicate (Z.to_nat (mult config))
                                   (DataLine [id; snap config]))).
Proof.
  intros Htype Hsub Hover Hset Hrange Hget Hne Hcols Hbuf.
  apply Run_no_exclusion_output with (snaps := replicate (length rawIds) (snap config));
    [done | done |].
  rewrite (Run_resolve_steps _ _ _ rawIds buf) by done.
  by rewrite bool_decide_true.
Qed.

Lemma Run_halo_id_passthrough_witness :
  Run (sampleConfig "halo-id" [42; 17] 13 2 "none" 1%float) sampleGlobal sampleEnv
  = Returns [CommentLine ["ID"; "Snapshot"] [] [0; 1] [1; 1];
             DataLine [42; 13]; DataLine [42; 13]; DataLine [17; 13]; DataLine [17; 13]].
Proof.
  apply (Run_halo_id_passthrough (sampleConfig "halo-id" [42; 17] 13 2 "none" 1%float)
           sampleGlobal sampleEnv [42; 17] (VectorBufferFor 13));
    [reflexivity | done | done | done | simpl; lia | reflexivity | done
    | simpl; lia | reflexivity].
Defined.

(** ** convertSortedIDs: ranks inside and outside the list *)

Lemma lookupRanks_in_range (rids rawIDs : list Z) :
  (∀ r, r ∈ rawIDs → 0 ≤ r < Z.of_nat (length rids)) →
  lookupRanks rids rawIDs
  = Returns ((λ r, default 0 (rids !! Z.to_nat r)) <$> rawIDs).
Proof.
  induction rawIDs as [|r rest IH]; intros Hin; [done|]. simpl.
  destruct (Hin r) as [Hlo Hhi]; [by left|].
  destruct (lookup_lt_is_Some_2 rids (Z.to_nat r)) as [id Hid]; [lia|].
  assert (index rids r = Returns id) as -> by by apply index_Returns.
  simpl. rewrite IH by (intros r' Hr'; apply Hin; by right). simpl.
  by rewrite Hid.
Qed.

(** X8.  When the sorted-ID lookup returns a list [rids] that holds every
    requested rank, [convertSortedIDs] returns the IDs [rids[r]], one per
    requested rank and in the order of the request (repeated ranks give
    repeated IDs). *)
Theorem convertSortedIDs_in_range (e : Environment) (rawIDs rids : list Z)
    (snapshot : Z) :
  ReadSortedRockstarIDs e snapshot (maxRawID rawIDs) = Returns rids →
  (∀ r, r ∈ rawIDs → 0 ≤ r < Z.of_nat (length rids)) →
  ∃ hids, convertSortedIDs e rawIDs snapshot = Returns hids
    ∧ length hids = length rawIDs
    ∧ ∀ i r, rawIDs !! i = Some r → hids !! i = rids !! Z.to_nat r.
Proof.
  intros Hrids Hin. unfold convertSortedIDs. rewrite Hrids. simpl.
  rewrite lookupRanks_in_range by done.
  eexists. split; [done|]. split; [by rewrite length_fmap|].
  intros i r Hi. rewrite list_lookup_fmap, Hi. simpl.
  destruct (Hin r) as [Hlo Hhi]; [by eapply list_elem_of_lookup_2|].
  destruct (lookup_lt_is_Some_2 rids (Z.to_nat r)) as [id Hid]; [lia|].
  by rewrite Hid.
Qed.

Lemma convertSortedIDs_in_range_witness :
  ∃ hids, convertSortedIDs sampleEnv [2; 0; 2] 10 = Returns hids
    ∧ length hids = length [2; 0; 2]
    ∧ ∀ i r, [2; 0; 2] !! i = Some r → hids !! i = [7; 3; 9] !! Z.to_nat r.
Proof.
  apply (convertSortedIDs_in_range sampleEnv [2; 0; 2] [7; 3; 9] 10); [reflexivity|].
  intros r Hr. simpl.
  repeat (apply elem_of_cons in Hr as [-> | Hr]; [lia|]). by apply elem_of_nil in Hr.
Defined.



(** X10.  The bound [convertSortedIDs] asks the sorted-ID lookup for is the
    largest requested rank, but never below 0: it is at least 0 and at
    least every rank, and it is either 0 or one of the ranks. *)
Theorem maxRawID_is_max_or_zero (rawIDs : list Z) :
  0 ≤ maxRawID rawIDs
  ∧ (∀ r, r ∈ rawIDs → r ≤ maxRawID rawIDs)
  ∧ (maxRawID rawIDs = 0 ∨ maxRawID rawIDs ∈ rawIDs).
Proof.
  split; [apply maxRawID_nonneg|]. split; [apply maxRawID_ge|].
  unfold maxRawID.
  enough (∀ start, let m := fold_left
                     (λ maxID id, if bool_decide (id > maxID) then id else maxID)
                     rawIDs start in m = start ∨ m ∈ rawIDs) as H by apply (H 0).
  induction rawIDs as [|id rest IH]; intros start; simpl; [by left|].
  destruct (IH (if bool_decide (id > start) then id else start)) as [-> | Hin].
  - case_bool_decide; [right; by left | by left].
  - right. by right.
Qed.

(** ** Run: mass ranks without exclusion *)

Lemma bind_fmap_list {A B C} (f : A → B) (g : B → list C) (l : list A) :
  (f <$> l) ≫= g = l ≫= λ a, g (f a).
Proof.
  induction l as [|a rest IH]; [done|].
  rewrite fmap_cons, !bind_cons, IH. done.
Qed.

(** X11.  In m200m mode without exclusion, when the sorted-ID lookup
    returns a list [rids] that holds every requested rank, [Run] returns
    the comment line and then, for each requested rank [r] in order, [mult]
    copies of the line [[rids[r], snap]]. *)
Theorem Run_m200m_ranks (config : IDConfig) (gConfig : GlobalConfig)
    (e : Environment) (rawIds rids : list Z) (buf : VectorBuffer) :
  idType config = "m200m" →
  exclusionStrategy config ≠ "subhalo" → exclusionStrategy config ≠ "overlap" →
  snap config ≠ -1 → SnapMin gConfig ≤ snap config ≤ SnapMax gConfig →
  getIDs (idStart config) (idEnd config) (ids config) = Returns rawIds →
  rawIds ≠ [] →
  (3 ≤ length (HaloPositionColumns gConfig))%nat →
  getVectorBuffer e (snap config) = Returns buf →
  ReadSortedRockstarIDs e (snap config) (maxRawID rawIds) = Returns rids →
  (∀ r, r ∈ rawIds → 0 ≤ r < Z.of_nat (length rids)) →
  Run config gConfig e
  = Returns (CommentLine ["ID"; "Snapshot"] [] [0; 1] [1; 1]
             :: (rawIds ≫= λ r, replicate (Z.to_nat (mult config))
                                  (DataLine [default 0 (rids !! Z.to_nat r);
                                             snap config]))).
Proof.
  intros Htype Hsub Hover Hset Hrange Hget Hne Hcols Hbuf Hrids Hin.
  rewrite (Run_no_exclusion_output config gConfig e
             ((λ r, default 0 (rids !! Z.to_nat r)) <$> rawIds)
             (replicate (length rawIds) (snap config))); [|done|done|].
  - by rewrite bind_fmap_list.
  - rewrite (Run_resolve_steps _ _ _ rawIds buf) by done.
    rewrite Htype. rewrite bool_decide_false by done. rewrite bool_decide_true by done.
    unfold convertSortedIDs. rewrite Hrids. simpl.
    by rewrite lookupRanks_in_range.
Qed.

Lemma Run_m200m_ranks_witness :
  Run (sampleConfig "m200m" [0; 1; 2] 10 1 "none" 1%float) sampleGlobal sampleEnv
  = Returns [CommentLine ["ID"; "Snapshot"] [] [0; 1] [1; 1];
             DataLine [7; 10]; DataLine [3; 10]; DataLine [9; 10]].
Proof.
  apply (Run_m200m_ranks (sampleConfig "m200m" [0; 1; 2] 10 1 "none" 1%float)
           sampleGlobal sampleEnv [0; 1; 2] [7; 3; 9] (VectorBufferFor 10));
    [reflexivity | done | done | done | simpl; lia | reflexivity | done
    | simpl; lia | reflexivity | reflexivity |].
  intros r Hr. simpl.
  repeat (apply elem_of_cons in Hr as [-> | Hr]; [lia|]). by apply elem_of_nil in Hr.
Defined.

(** ** Run: how many lines *)

Lemma length_survivors {A B} (n : nat) (f : A → B) (hids : list A) :
  ∀ exclude : list bool,
    (length (zip hids exclude
             ≫= λ p : A * bool, if p.2 then [] else replicate n (f p.1))
     ≤ n * length hids)%nat.
Proof.
  induction hids as [|id rest IH]; intros [|x exclude]; [simpl; lia ..|].
  cbn [zip_with]. rewrite bind_cons, length_app. specialize (IH exclude).
  destruct x; cbn [snd fst length]; [|rewrite length_replicate]; lia.
Qed.

Lemma length_bind_replicate {A B} (n : nat) (f : A → B) (hids : list A) :
  length (hids ≫= λ id, replicate n (f id)) = (n * length hids)%nat.
Proof.
  induction hids as [|id rest IH]; [simpl; lia|].
  rewrite bind_cons, length_app, length_replicate, IH. simpl. lia.
Qed.

(** X12.  A successful run returns at least the comment line and at most
    [1 + mult * n] lines for [n] resolved IDs; unless the strategy is
    "overlap", it returns exactly that many. *)
Theorem Run_output_length (config : IDConfig) (gConfig : GlobalConfig)
    (e : Environment) (out : list line) :
  Run config gConfig e = Returns out →
  ∃ hids snaps,
    Run_resolve config gConfig e = Returns (hids, snaps)
    ∧ (1 ≤ length out ≤ 1 + Z.to_nat (mult config) * length hids)%nat
    ∧ (exclusionStrategy config ≠ "overlap" →
       length out = (1 + Z.to_nat (mult config) * length hids)%nat).
Proof.
  intros HRun.
  destruct (Run_Returns_inv _ _ _ _ HRun) as (hids & exclude & _ & Hres & _ & _ & ->).
  exists hids, (replicate (length hids) (snap config)). split; [done|]. split.
  - simpl.
    pose proof (length_survivors (Z.to_nat (mult config))
                  (λ id, DataLine [id; snap config]) hids exclude) as Hle.
    cbv beta in Hle. lia.
  - intros Hover.
    assert (exclusionStrategy config ≠ "subhalo") as Hsub.
    { intros Hs. by apply (Run_subhalo_no_lines config gConfig e Hs _ HRun). }
    rewrite (Run_no_exclusion_output _ _ _ _ _ Hsub Hover Hres) in HRun.
    injection HRun as <-. simpl.
    by rewrite (length_bind_replicate _ (λ id, DataLine [id; snap config])).
Qed.

Lemma Run_output_length_witness :
  ∃ hids snaps,
    Run_resolve (sampleConfig "m200m" [0; 1; 2] 10 2 "overlap" 1%float)
      sampleGlobal sampleEnv = Returns (hids, snaps)
    ∧ (1 ≤ 5 ≤ 1 + 2 * length hids)%nat
    ∧ ("overlap" ≠ "overlap" → 5%nat = (1 + 2 * length hids)%nat).
Proof.
  apply (Run_output_length (sampleConfig "m200m" [0; 1; 2] 10 2 "overlap" 1%float)
           sampleGlobal sampleEnv
           [CommentLine ["ID"; "Snapshot"] [] [0; 1] [1; 1];
            DataLine [7; 10]; DataLine [7; 10]; DataLine [9; 10]; DataLine [9; 10]]).
  reflexivity.
Defined.

(** X13.  [Run] does not validate [mult]: with [mult <= 0] the multiply
    loop makes no iteration, and a run that succeeds returns the comment
    line alone, whatever was selected. *)
Theorem Run_nonpositive_mult_header_only (config : IDConfig) (gConfig : GlobalConfig)
    (e : Environment) (out : list line) :
  mult config ≤ 0 →
  Run config gConfig e = Returns out →
  out = [CommentLine ["ID"; "Snapshot"] [] [0; 1] [1; 1]].
Proof.
  intros Hmult HRun.
  destruct (Run_Returns_inv _ _ _ _ HRun) as (hids & exclude & _ & _ & _ & _ & ->).
  f_equal. replace (Z.to_nat (mult config)) with 0%nat by lia.
  generalize exclude. clear. induction hids as [|id rest IH]; intros [|x exclude]; try done.
  cbn [zip_with]. rewrite bind_cons, IH. by destruct x.
Qed.

Lemma Run_nonpositive_mult_header_only_witness :
  Run (sampleConfig "m200m" [0; 1; 2] 10 0 "none" 1%float) sampleGlobal sampleEnv
  = Returns [CommentLine ["ID"; "Snapshot"] [] [0; 1] [1; 1]].
Proof.
  destruct (Run (sampleConfig "m200m" [0; 1; 2] 10 0 "none" 1%float)
              sampleGlobal sampleEnv) as [out| |] eqn:HRun;
    [|vm_compute in HRun; discriminate HRun|vm_compute in HRun; discriminate HRun].
  f_equal.
  by apply (Run_nonpositive_mult_header_only
              (sampleConfig "m200m" [0; 1; 2] 10 0 "none" 1%float)
              sampleGlobal sampleEnv out).
Defined.

(** ** Run: what is consulted *)

Lemma convertSortedIDs_same_catalog e1 e2 (rawIDs : list Z) (snapshot : Z) :
  sortedCatalog e1 snapshot = sortedCatalog e2 snapshot →
  convertSortedIDs e1 rawIDs snapshot = convertSortedIDs e2 rawIDs snapshot.
Proof.
  intros Hcat. unfold convertSortedIDs, ReadSortedRockstarIDs. by rewrite Hcat.
Qed.

Lemma Run_resolve_same_inputs e1 e2 config gConfig :
  (∀ s, getVectorBuffer e1 s = getVectorBuffer e2 s) →
  (∀ s, sortedCatalog e1 s = sortedCatalog e2 s) →
  Run_resolve config gConfig e1 = Run_resolve config gConfig e2.
Proof.
  intros Hbuf Hcat. unfold Run_resolve.
  case_bool_decide; [done|]. destruct (_ || _); [done|].
  destruct (getIDs _ _ _) as [rawIds| |]; [|done|done]. simpl.
  destruct (index _ 0) as [x| |]; [|done|done]. simpl.
  destruct (index _ 1) as [y| |]; [|done|done]. simpl.
  destruct (index _ 2) as [z| |]; [|done|done]. simpl.
  case_bool_decide.
  - destruct (index _ 0) as [s0| |]; [|done|done]. simpl. by rewrite Hbuf.
  - case_bool_decide; [|done].
    destruct (index _ 0) as [s0| |]; [|done|done]. simpl. rewrite Hbuf.
    destruct (getVectorBuffer e2 _); [|done|done]. simpl.
    by rewrite (convertSortedIDs_same_catalog e1 e2).
Qed.

(** X14.  Unless the strategy is "overlap", [Run] consults nothing but the
    vector buffer and the sorted-ID list: two environments that agree on
    these give the same result, whatever their headers, halo records,
    finder and map iteration order. *)
Theorem Run_ignores_finder_unless_overlap (config : IDConfig) (gConfig : GlobalConfig)
    (e1 e2 : Environment) :
  exclusionStrategy config ≠ "overlap" →
  (∀ s, getVectorBuffer e1 s = getVectorBuffer e2 s) →
  (∀ s, sortedCatalog e1 s = sortedCatalog e2 s) →
  Run config gConfig e1 = Run config gConfig e2.
Proof.
  intros Hover Hbuf Hcat. unfold Run.
  rewrite (Run_resolve_same_inputs e1 e2) by done.
  destruct (Run_resolve config gConfig e2) as [[hids snaps]| |]; [|done|done]. simpl.
  assert (Run_exclude config e1 hids snaps = Run_exclude config e2 hids snaps) as ->; [|done].
  unfold Run_exclude.
  by rewrite (bool_decide_false (exclusionStrategy config = "overlap")) by done.
Qed.

Lemma Run_ignores_finder_unless_overlap_witness :
  Run (sampleConfig "m200m" [0; 1; 2] 10 1 "none" 1%float) sampleGlobal sampleEnv
  = Run (sampleConfig "m200m" [0; 1; 2] 10 1 "none" 1%float) sampleGlobal brokenFinderEnv.
Proof.
  apply (Run_ignores_finder_unless_overlap
           (sampleConfig "m200m" [0; 1; 2] 10 1 "none" 1%float) sampleGlobal
           sampleEnv brokenFinderEnv);
    [done | intros s; reflexivity | intros s; reflexivity].
Defined.

(** ** ReadConfig and Run *)

(** X15.  Without a configuration file [ReadConfig] returns nil and leaves
    the defaults in place, [Snap = -1] among them; [Run] then fails with
    its "no id.config file was provided" error before it looks at the
    global configuration or the environment. *)
Theorem Run_without_config_file (readFile : string → outcome ConfigFile)
    (gConfig : GlobalConfig) (e : Environment) :
  (ReadConfig readFile "").2 = Returns ()
  ∧ Run (ReadConfig readFile "").1 gConfig e = Fails ErrRunSnapNotSet.
Proof. split; reflexivity. Qed.

(** ** findOverlapSubs: grouping any selection *)

Lemma selectBySnapshot_absent (s : Z) (xs snaps : list Z) :
  s ∉ snaps → selectBySnapshot s xs snaps = [].
Proof.
  unfold selectBySnapshot. revert xs.
  induction snaps as [|sn rest IH]; intros [|x xs] Hnotin; try done.
  apply not_elem_of_cons in Hnotin as [Hne Hnotin]. cbn [zip_with omap list_omap].
  simpl. rewrite bool_decide_false by done. by apply IH.
Qed.

Lemma selectBySnapshot_cons (s x sn : Z) (xs snaps : list Z) :
  selectBySnapshot s (x :: xs) (sn :: snaps)
  = if bool_decide (sn = s) then x :: selectBySnapshot s xs snaps
    else selectBySnapshot s xs snaps.
Proof. unfold selectBySnapshot. simpl. by case_bool_decide. Qed.

Lemma groupBySnapshot_from_prefix (rest : list Z) :
  ∀ (restS preS : list Z) (G I : gmap Z (list Z)),
    length rest = length restS →
    ∃ G' I',
      groupBySnapshot (preS ++ restS) (Z.of_nat (length preS)) rest G I = Returns (G', I')
      ∧ ∀ s,
          (s ∈ restS →
           G' !! s = Some (default [] (G !! s) ++ selectBySnapshot s rest restS)
           ∧ I' !! s = Some (default [] (I !! s)
                             ++ selectBySnapshot s
                                  (seqZ (Z.of_nat (length preS)) (Z.of_nat (length restS)))
                                  restS))
          ∧ (s ∉ restS → G' !! s = G !! s ∧ I' !! s = I !! s).
Proof.
  induction rest as [|id rest IH]; intros [|sn restS] preS G I Hlen; try done.
  - exists G, I. split; [done|]. intros s. split; [by intros ?%elem_of_nil | done].
  - simpl in Hlen. simpl groupBySnapshot.
    rewrite (index_of_nat _ _ sn) by (by apply list_lookup_middle). simpl.
    destruct (IH restS (preS ++ [sn])
                (<[sn := default [] (G !! sn) ++ [id]]> G)
                (<[sn := default [] (I !! sn) ++ [Z.of_nat (length preS)]]> I))
      as (G' & I' & Hrun & Hspec); [lia|].
    rewrite length_app, <- app_assoc in Hrun. simpl in Hrun.
    rewrite Nat2Z.inj_add in Hrun. change (Z.of_nat 1) with 1 in Hrun.
    exists G', I'. split; [done|]. intros s.
    rewrite length_app in Hspec. simpl in Hspec.
    replace (Z.of_nat (length preS + 1)) with (Z.succ (Z.of_nat (length preS)))
      in Hspec by lia.
    rewrite (seqZ_cons (Z.of_nat (length preS))) by (simpl; lia).
    assert (Z.pred (Z.of_nat (S (length restS))) = Z.of_nat (length restS)) as Hpred
      by lia.
    cbn [length]. rewrite Hpred. clear Hpred.
    rewrite !selectBySnapshot_cons.
    destruct (Hspec s) as [Hin Hout].
    destruct (decide (sn = s)) as [->|Hne].
    + rewrite !bool_decide_true by done.
      split; [|intros Hnot; exfalso; apply Hnot; by left].
      intros _. destruct (decide (s ∈ restS)) as [Hs|Hs].
      * destruct (Hin Hs) as [-> ->]. rewrite !lookup_insert_eq. simpl.
        by rewrite <- !app_assoc.
      * destruct (Hout Hs) as [-> ->]. rewrite !lookup_insert_eq.
        by rewrite !selectBySnapshot_absent by done.
    + rewrite !bool_decide_false by done.
      rewrite !lookup_insert_ne in Hin, Hout by done. split.
      * intros [?|Hs]%elem_of_cons; [done|]. by apply Hin.
      * intros [_ Hs]%not_elem_of_cons. by apply Hout.
Qed.

(** X16.  The grouping loop of [findOverlapSubs], on any selection with
    one snapshot per ID: the keys of both maps are exactly the snapshots
    that occur; the group of a snapshot holds the IDs selected at that
    snapshot, in selection order, and its index list holds their positions
    in the selection. *)
Theorem groupBySnapshot_partition (rawIDs snaps : list Z) :
  length rawIDs = length snaps →
  ∃ snapGroups groupIdxs,
    groupBySnapshot snaps 0 rawIDs ∅ ∅ = Returns (snapGroups, groupIdxs)
    ∧ ∀ s,
        (s ∈ snaps →
         snapGroups !! s = Some (selectBySnapshot s rawIDs snaps)
         ∧ groupIdxs !! s
           = Some (selectBySnapshot s (seqZ 0 (Z.of_nat (length snaps))) snaps))
        ∧ (s ∉ snaps → snapGroups !! s = None ∧ groupIdxs !! s = None).
Proof.
  intros Hlen.
  destruct (groupBySnapshot_from_prefix rawIDs snaps [] ∅ ∅ Hlen)
    as (G & I & Hrun & Hspec).
  exists G, I. split; [exact Hrun|]. intros s. destruct (Hspec s) as [Hin Hout].
  split; [|done]. intros Hs. destruct (Hin Hs) as [-> ->].
  by rewrite !lookup_empty.
Qed.

Lemma groupBySnapshot_partition_witness :
  ∃ snapGroups groupIdxs,
    groupBySnapshot [10; 11; 10] 0 [7; 4; 9] ∅ ∅ = Returns (snapGroups, groupIdxs)
    ∧ ∀ s,
        (s ∈ [10; 11; 10] →
         snapGroups !! s = Some (selectBySnapshot s [7; 4; 9] [10; 11; 10])
         ∧ groupIdxs !! s
           = Some (selectBySnapshot s (seqZ 0 (Z.of_nat (length [10; 11; 10])))
                     [10; 11; 10]))
        ∧ (s ∉ [10; 11; 10] → snapGroups !! s = None ∧ groupIdxs !! s = None).
Proof. apply (groupBySnapshot_partition [7; 4; 9] [10; 11; 10]). reflexivity. Defined.

Example selectBySnapshot_10 :
  selectBySnapshot 10 [7; 4; 9] [10; 11; 10] = [7; 9]
  ∧ selectBySnapshot 10 (seqZ 0 3) [10; 11; 10] = [0; 2].
Proof. split; reflexivity. Qed.

Lemma groupBySnapshot_short_snaps (snaps rawIDs : list Z) :
  ∀ (i : nat) (G I : gmap Z (list Z)),
    (i ≤ length snaps < i + length rawIDs)%nat →
    groupBySnapshot snaps (Z.of_nat i) rawIDs G I = Panics PanicIndexOutOfRange.
Proof.
  induction rawIDs as [|id rest IH]; intros i G I Hlen; simpl in *.
  - lia.
  - destruct (decide (i < length snaps)%nat) as [Hi|Hi].
    + destruct (lookup_lt_is_Some_2 snaps i Hi) as [sn Hsn].
      rewrite (index_of_nat _ _ _ Hsn). simpl.
      replace (Z.of_nat i + 1) with (Z.of_nat (S i)) by lia. apply IH. lia.
    + by rewrite index_out_of_range by lia.
Qed.

(** X17.  [findOverlapSubs] reads [snaps[i]] for every selected ID: given
    fewer snapshots than IDs it panics with an index out of range, before
    any header or catalog is read. *)
Theorem findOverlapSubs_short_snaps_panics (e : Environment) (rawIDs snaps : list Z)
    (config : IDConfig) :
  (length snaps < length rawIDs)%nat →
  findOverlapSubs e rawIDs snaps config = Panics PanicIndexOutOfRange.
Proof.
  intros Hlen. unfold findOverlapSubs.
  by rewrite (groupBySnapshot_short_snaps snaps rawIDs 0%nat) by lia.
Qed.

Lemma findOverlapSubs_short_snaps_panics_witness :
  findOverlapSubs brokenFinderEnv [7; 3] [10]
    (sampleConfig "halo-id" [7; 3] 10 1 "overlap" 1%float)
  = Panics PanicIndexOutOfRange.
Proof.
  apply (findOverlapSubs_short_snaps_panics brokenFinderEnv [7; 3] [10]). simpl. lia.
Defined.

(** ** findOverlapSubs: one snapshot, from the reads to the flags *)

Lemma bind_assoc_outcome {A B C} (m : outcome A) (f : A → outcome B) (g : B → outcome C) :
  (m ≫= f) ≫= g = m ≫= λ a, f a ≫= g.
Proof. by destruct m. Qed.

Lemma index_0_Returns {A} (s : list A) (a : A) :
  index s 0 = Returns a → ∃ more, s = a :: more.
Proof.
  intros [_ Hs]%index_Returns. destruct s as [|a' more]; [done|].
  injection Hs as ->. by exists more.
Qed.

Lemma findOverlapSubs_single_inv e config snapshot (hids : list Z) (flags : list bool) :
  hids ≠ [] →
  findOverlapSubs e hids (replicate (length hids) snapshot) config = Returns flags →
  ∃ hd more rids sf,
    ReadHeaders e snapshot = Returns (hd :: more)
    ∧ sortedCatalog e snapshot = Returns rids
    ∧ FindSubhalos e finderCells (TotalWidth hd) (ReadRockstar e snapshot rids)
        (exclusionRadiusMult config) = Returns sf
    ∧ length flags = length hids
    ∧ ∀ i id, hids !! i = Some id → flagOf sf rids id (Some false) (flags !! i).
Proof.
  intros Hne. rewrite findOverlapSubs_single_unfold by done. intros H.
  apply bind_Returns_inv in H as (hds & Hhds & H).
  apply bind_Returns_inv in H as (hd & [more ->]%index_0_Returns & H).
  apply bind_Returns_inv in H as (rids & Hrids & H).
  apply bind_Returns_inv in H as (sf & Hsf & H).
  unfold ReadSortedRockstarIDs in Hrids.
  apply bind_Returns_inv in Hrids as (full & Hfull & Hrids).
  simpl in Hrids. injection Hrids as <-.
  exists hd, more, full, sf. split; [done|]. split; [done|]. split; [done|].
  apply (flagGroup_spec sf full (length hids) hids 0%nat) in H as (Hlen & _ & Hflags);
    [|done|by rewrite length_replicate].
  split; [done|]. intros i id Hi. specialize (Hflags i id Hi). simpl in Hflags.
  rewrite lookup_replicate_2 in Hflags; [done|]. by eapply lookup_lt_Some.
Qed.

(** X18.  When [findOverlapSubs] returns flags for a selection at one
    snapshot, there is one flag per selected ID, the header, the full
    sorted-ID list [rids] and the finder's counts [sf] were obtained, and,
    unless [rids] is empty, every selected ID occurs in [rids] and its flag
    says whether the finder's host count at the first position of that ID
    in [rids] is positive.  The position of the ID in the selection plays
    no part. *)
Theorem findOverlapSubs_flags_by_first_match (e : Environment) (config : IDConfig)
    (snapshot : Z) (hids : list Z) (flags : list bool) :
  hids ≠ [] →
  findOverlapSubs e hids (replicate (length hids) snapshot) config = Returns flags →
  ∃ hd more rids sf,
    ReadHeaders e snapshot = Returns (hd :: more)
    ∧ sortedCatalog e snapshot = Returns rids
    ∧ FindSubhalos e finderCells (TotalWidth hd) (ReadRockstar e snapshot rids)
        (exclusionRadiusMult config) = Returns sf
    ∧ length flags = length hids
    ∧ (rids ≠ [] →
       ∀ i id, hids !! i = Some id →
         ∃ (j : nat) (hc : Z),
           rids !! j = Some id ∧ (∀ k, (k < j)%nat → rids !! k ≠ Some id)
           ∧ sf !! j = Some hc ∧ flags !! i = Some (bool_decide (hc > 0))).
Proof.
  intros Hne Hfind.
  apply findOverlapSubs_single_inv in Hfind
    as (hd & more & rids & sf & Hhds & Hcat & Hsf & Hlen & Hflags); [|done].
  exists hd, more, rids, sf. do 4 (split; [done|]).
  intros Hrids i id Hi.
  destruct (Hflags i id Hi) as [j hc Hsearch Hhc | Hempty]; [|done].
  apply searchID_Found_inv in Hsearch as (Hj & Hat & Hfirst).
  apply index_Returns in Hhc as [_ Hhc]. rewrite Z.sub_0_r in Hat, Hfirst.
  exists (Z.to_nat j), hc. done.
Qed.

Lemma findOverlapSubs_flags_by_first_match_witness :
  ∃ hd more rids sf,
    ReadHeaders sampleEnv 10 = Returns (hd :: more)
    ∧ sortedCatalog sampleEnv 10 = Returns rids
    ∧ FindSubhalos sampleEnv finderCells (TotalWidth hd) (ReadRockstar sampleEnv 10 rids)
        (exclusionRadiusMult (sampleConfig "halo-id" [3; 7; 3] 10 1 "overlap" 1%float))
      = Returns sf
    ∧ length [true; false; true] = length [3; 7; 3]
    ∧ (rids ≠ [] →
       ∀ i id, [3; 7; 3] !! i = Some id →
         ∃ (j : nat) (hc : Z),
           rids !! j = Some id ∧ (∀ k, (k < j)%nat → rids !! k ≠ Some id)
           ∧ sf !! j = Some hc
           ∧ [true; false; true] !! i = Some (bool_decide (hc > 0))).
Proof.
  apply (findOverlapSubs_flags_by_first_match sampleEnv
           (sampleConfig "halo-id" [3; 7; 3] 10 1 "overlap" 1%float) 10 [3; 7; 3]
           [true; false; true]); [done | reflexivity].
Defined.

Lemma flagGroup_app (sf rids idxs : list Z) (g1 g2 : list Z) :
  ∀ (i : Z) (isSub : list bool),
    flagGroup sf rids idxs i (g1 ++ g2) isSub
    = flagGroup sf rids idxs i g1 isSub
      ≫= flagGroup sf rids idxs (i + Z.of_nat (length g1)) g2.
Proof.
  induction g1 as [|id rest IH]; intros i isSub.
  - simpl. by rewrite Z.add_0_r.
  - cbn [app flagGroup]. rewrite bind_assoc_outcome.
    destruct (index idxs i) as [origIdx| |]; [|done|done]. simpl.
    rewrite bind_assoc_outcome.
    destruct (match searchID id (Z.of_nat (length rids)) 0 rids with
              | Found j => HostCount sf j ≫= λ hc, store isSub origIdx (bool_decide (hc > 0))
              | NotInList => Fails (ErrIDNotInHaloList id)
              | LoopEnded => Returns isSub
              end) as [isSub'| |]; [|done|done].
    simpl. rewrite IH. do 2 f_equal. lia.
Qed.

Lemma flagGroup_all_found (sf rids : list Z) (n : nat) (group : list Z) :
  (length rids ≤ length sf)%nat →
  (∀ id, id ∈ group → id ∈ rids) →
  ∀ (i : nat) (isSub : list bool),
    (i + length group ≤ n)%nat → length isSub = n →
    ∃ flags,
      flagGroup sf rids (seqZ 0 (Z.of_nat n)) (Z.of_nat i) group isSub = Returns flags
      ∧ length flags = n.
Proof.
  intros Hsf. induction group as [|id rest IH]; intros Hin i isSub Hi Hlen.
  - by exists isSub.
  - simpl in Hi. cbn [flagGroup]. rewrite index_seqZ by lia. simpl.
    destruct (list_elem_of_split_l rids id) as (pre & post & -> & Hfirst);
      [apply Hin; by left|].
    pose proof (searchID_first_match id 0 pre post Hfirst) as Hsearch.
    rewrite !Z.add_0_l in Hsearch. rewrite Hsearch. clear Hsearch.
    destruct (lookup_lt_is_Some_2 sf (length pre)) as [hc Hhc].
    { rewrite length_app in Hsf. simpl in Hsf. lia. }
    unfold HostCount. rewrite (index_of_nat _ _ _ Hhc). simpl.
    unfold store. rewrite bool_decide_true by lia. simpl.
    replace (Z.of_nat i + 1) with (Z.of_nat (S i)) by lia.
    apply IH; [intros id' Hid'; apply Hin; by right | lia |].
    by rewrite length_insert.
Qed.

(** X19.  The first selected ID that is absent from a non-empty sorted-ID
    list stops [findOverlapSubs] with the error "ID ... not in halo list"
    for that ID, provided the reads succeeded, the finder gave a count for
    every halo of the list, and the IDs selected before it are in the
    list. *)
Theorem findOverlapSubs_reports_first_absent_id (e : Environment) (config : IDConfig)
    (snapshot : Z) (pre post rids sf : list Z) (id : Z) (hd : Header)
    (more : list Header) :
  ReadHeaders e snapshot = Returns (hd :: more) →
  sortedCatalog e snapshot = Returns rids → rids ≠ [] →
  FindSubhalos e finderCells (TotalWidth hd) (ReadRockstar e snapshot rids)
    (exclusionRadiusMult config) = Returns sf →
  (length rids ≤ length sf)%nat →
  (∀ x, x ∈ pre → x ∈ rids) → id ∉ rids →
  findOverlapSubs e (pre ++ id :: post)
    (replicate (length (pre ++ id :: post)) snapshot) config
  = Fails (ErrIDNotInHaloList id).
Proof.
  intros Hhds Hcat Hne Hsf Hlen Hpre Hid.
  rewrite findOverlapSubs_single_unfold by (by destruct pre).
  rewrite Hhds. simpl. unfold ReadSortedRockstarIDs. rewrite Hcat. simpl.
  rewrite Hsf. simpl. rewrite (flagGroup_app _ _ _ pre (id :: post) 0).
  destruct (flagGroup_all_found sf rids (length (pre ++ id :: post)) pre Hlen Hpre 0%nat
              (replicate (length (pre ++ id :: post)) false))
    as (flags & Hrun & Hflags);
    [rewrite length_app; simpl; lia | by rewrite length_replicate|].
  change (Z.of_nat 0) with 0 in Hrun. rewrite Hrun. clear Hrun.
  cbn [mbind outcome_bind flagGroup]. rewrite Z.add_0_l.
  rewrite index_seqZ by (rewrite length_app; simpl; lia). simpl.
  pose proof (searchID_absent id 0 rids Hne Hid) as Hsearch.
  rewrite Z.add_0_l in Hsearch. by rewrite Hsearch.
Qed.

Lemma findOverlapSubs_reports_first_absent_id_witness :
  findOverlapSubs sampleEnv [7; 5; 6] [10; 10; 10]
    (sampleConfig "halo-id" [7; 5; 6] 10 1 "overlap" 1%float)
  = Fails (ErrIDNotInHaloList 5).
Proof.
  apply (findOverlapSubs_reports_first_absent_id sampleEnv
           (sampleConfig "halo-id" [7; 5; 6] 10 1 "overlap" 1%float) 10
           [7] [6] [7; 3; 9; 1; 2] [0; 1; 0; 0; 0] 5 {| TotalWidth := 100%float |} []);
    [reflexivity | reflexivity | done | reflexivity | simpl; lia | |].
  - intros x ->%list_elem_of_singleton. by left.
  - intros Hin.
    repeat (apply elem_of_cons in Hin as [Hin | Hin]; [discriminate Hin|]).
    by apply elem_of_nil in Hin.
Defined.

(** X20.  [findOverlapSubs] returns flags, one per selected ID, whenever
    the selection is not empty and all at one snapshot, the header and the
    sorted-ID list of that snapshot are read, the finder gives a count for
    every halo of the list, and every selected ID is in the list. *)
Theorem findOverlapSubs_returns (e : Environment) (config : IDConfig)
    (snapshot : Z) (hids rids sf : list Z) (hd : Header) (more : list Header) :
  hids ≠ [] →
  ReadHeaders e snapshot = Returns (hd :: more) →
  sortedCatalog e snapshot = Returns rids →
  FindSubhalos e finderCells (TotalWidth hd) (ReadRockstar e snapshot rids)
    (exclusionRadiusMult config) = Returns sf →
  (length rids ≤ length sf)%nat →
  (∀ id, id ∈ hids → id ∈ rids) →
  ∃ flags,
    findOverlapSubs e hids (replicate (length hids) snapshot) config = Returns flags
    ∧ length flags = length hids.
Proof.
  intros Hne Hhds Hcat Hsf Hlen Hin.
  rewrite findOverlapSubs_single_unfold by done.
  rewrite Hhds. simpl. unfold ReadSortedRockstarIDs. rewrite Hcat. simpl.
  rewrite Hsf. simpl.
  apply (flagGroup_all_found sf rids (length hids) hids Hlen Hin 0%nat);
    [simpl; lia | by rewrite length_replicate].
Qed.

Lemma findOverlapSubs_returns_witness :
  ∃ flags,
    findOverlapSubs sampleEnv [3; 7; 3] (replicate (length [3; 7; 3]) 10)
      (sampleConfig "halo-id" [3; 7; 3] 10 1 "overlap" 1%float) = Returns flags
    ∧ length flags = length [3; 7; 3].
Proof.
  apply (findOverlapSubs_returns sampleEnv
           (sampleConfig "halo-id" [3; 7; 3] 10 1 "overlap" 1%float) 10
           [3; 7; 3] [7; 3; 9; 1; 2] [0; 1; 0; 0; 0] {| TotalWidth := 100%float |} []);
    [done | reflexivity | reflexivity | reflexivity | simpl; lia |].
  intros id Hid.
  repeat (apply elem_of_cons in Hid as [-> | Hid];
          [repeat (first [by left | right])|]).
  by apply elem_of_nil in Hid.
Defined.

(** ** Run: an unknown IDType *)

(** X21.  [Run] does not validate [IDType]: with a value other than
    "halo-id" and "m200m", once the snapshot checks, [getIDs] and the
    column description have passed, the [switch] takes its default case
    and panics with "Impossible", before any buffer or catalog is
    touched. *)
Theorem Run_unknown_idType_panics (config : IDConfig) (gConfig : GlobalConfig)
    (e : Environment) (rawIds : list Z) :
  idType config ≠ "halo-id" → idType config ≠ "m200m" →
  snap config ≠ -1 → SnapMin gConfig ≤ snap config ≤ SnapMax gConfig →
  getIDs (idStart config) (idEnd config) (ids config) = Returns rawIds →
  (3 ≤ length (HaloPositionColumns gConfig))%nat →
  Run config gConfig e = Panics PanicImpossible.
Proof.
  intros Hhalo Hm200m Hset Hrange Hget Hcols. unfold Run, Run_resolve.
  rewrite bool_decide_false by done.
  rewrite (bool_decide_false (snap config < SnapMin gConfig)) by lia.
  rewrite (bool_decide_false (snap config > SnapMax gConfig)) by lia.
  simpl. rewrite Hget. simpl.
  destruct (index_in_range (HaloPositionColumns gConfig) 0) as [x ->]; [lia|].
  destruct (index_in_range (HaloPositionColumns gConfig) 1) as [y ->]; [lia|].
  destruct (index_in_range (HaloPositionColumns gConfig) 2) as [z ->]; [lia|].
  simpl. rewrite (bool_decide_false (idType config = "halo-id")) by done.
  by rewrite (bool_decide_false (idType config = "m200m")) by done.
Qed.

Lemma Run_unknown_idType_panics_witness :
  Run (sampleConfig "M200m" [0] 10 1 "none" 1%float) sampleGlobal brokenFinderEnv
  = Panics PanicImpossible.
Proof.
  apply (Run_unknown_idType_panics (sampleConfig "M200m" [0] 10 1 "none" 1%float)
           sampleGlobal brokenFinderEnv [0]);
    [done | done | done | simpl; lia | reflexivity | simpl; lia].
Defined.
